(** * struct_gen: a header generator for Il2CppDumper's dump.cs

    A shallow embedding of [script/struct_gen.py] and the properties of
    its scanner, alias map, type resolver and renderer.

    Text is a [string] of characters with code points below 256; the
    character classes are Python's, restricted to that range.  Objects
    that the script shares by reference ([TypeInfo]) live in a store, a
    list indexed by discovery order, and are referred to by their index. *)

From Stdlib Require Import Ascii String ZArith Lia Bool.
From stdpp Require Import base option list gmap strings.

Open Scope string_scope.

(** ** Characters and the [str] methods the script uses *)

Module Py.

Definition code (c : ascii) : nat := nat_of_ascii c.

Definition between (lo hi : nat) (c : ascii) : bool :=
  Nat.leb lo (code c) && Nat.leb (code c) hi.

(** [str.isspace] for one character. *)
Definition isspace (c : ascii) : bool :=
  between 9 13 c || between 28 32 c || Nat.eqb (code c) 133 || Nat.eqb (code c) 160.

(** The ranges [0-9], [A-Z] and [a-z] of a regular expression. *)
Definition ascii_digit (c : ascii) : bool := between 48 57 c.
Definition ascii_upper (c : ascii) : bool := between 65 90 c.
Definition ascii_lower (c : ascii) : bool := between 97 122 c.

(** [str.isdigit] for one character: the decimal digits and the
    superscripts two, three and one. *)
Definition isdigit (c : ascii) : bool :=
  ascii_digit c || Nat.eqb (code c) 178 || Nat.eqb (code c) 179 || Nat.eqb (code c) 185.

(** [str.isalnum] for one character. *)
Definition isalnum (c : ascii) : bool :=
  ascii_digit c || ascii_upper c || ascii_lower c
  || Nat.eqb (code c) 170 || Nat.eqb (code c) 181 || Nat.eqb (code c) 186
  || between 178 179 c || Nat.eqb (code c) 185 || between 188 190 c
  || between 192 214 c || between 216 246 c || between 248 255 c.

Definition eqc (a b : ascii) : bool := Ascii.eqb a b.

Fixpoint lstrip (s : string) : string :=
  match s with
  | String c t => if isspace c then lstrip t else s
  | EmptyString => EmptyString
  end.

(** [s.rstrip()], and [s.rstrip(chars)] through the class [p]. *)
Fixpoint rstrip_by (p : ascii -> bool) (s : string) : string :=
  match s with
  | String c t =>
      match rstrip_by p t with
      | EmptyString => if p c then EmptyString else String c EmptyString
      | r => String c r
      end
  | EmptyString => EmptyString
  end.

Definition rstrip (s : string) : string := rstrip_by isspace s.
Definition strip (s : string) : string := lstrip (rstrip s).

Fixpoint startswith (p s : string) : bool :=
  match p, s with
  | EmptyString, _ => true
  | String a p', String b s' => eqc a b && startswith p' s'
  | String _ _, EmptyString => false
  end.

Fixpoint drop (n : nat) (s : string) : string :=
  match n, s with
  | S n', String _ t => drop n' t
  | _, _ => s
  end.

Fixpoint take (n : nat) (s : string) : string :=
  match n, s with
  | S n', String c t => String c (take n' t)
  | _, _ => EmptyString
  end.

(** [s.endswith(p)]: [p] is [s] or the end of the tail of [s]. *)
Fixpoint endswith (p s : string) : bool :=
  String.eqb s p ||
  match s with
  | String _ t => endswith p t
  | EmptyString => false
  end.

(** [s[:-n]] *)
Definition drop_last (n : nat) (s : string) : string :=
  take (String.length s - n) s.

(** [needle in s] *)
Fixpoint contains (needle s : string) : bool :=
  startswith needle s ||
  match s with
  | String _ t => contains needle t
  | EmptyString => false
  end.

(** [s.count(c)] for a one-character [c]. *)
Fixpoint count (c : ascii) (s : string) : nat :=
  match s with
  | String a t => (if eqc a c then 1 else 0) + count c t
  | EmptyString => 0
  end.

(** [s.replace(old, new)] for a non-empty [old]: occurrences are replaced
    from the left and do not overlap.  [skip] counts the characters of an
    occurrence that are still to be passed over. *)
Fixpoint replace_from (skip : nat) (old new s : string) : string :=
  match s with
  | EmptyString => EmptyString
  | String c t =>
      match skip with
      | S k => replace_from k old new t
      | O =>
          if startswith old s
          then new ++ replace_from (String.length old - 1) old new t
          else String c (replace_from 0 old new t)
      end
  end.

Definition replace (old new s : string) : string := replace_from 0 old new s.

(** [s.split(sep)] for a one-character [sep]; never the empty list. *)
Fixpoint split (sep : ascii) (s : string) : list string :=
  match s with
  | EmptyString => [EmptyString]
  | String c t =>
      if eqc c sep then EmptyString :: split sep t
      else match split sep t with
           | h :: r => String c h :: r
           | [] => [String c EmptyString]
           end
  end.

(** [s.split(sep, 1)[0]]: the text before the first occurrence of a
    non-empty [sep], or all of [s]. *)
Fixpoint before (sep s : string) : string :=
  match s with
  | EmptyString => EmptyString
  | String c t => if startswith sep s then EmptyString else String c (before sep t)
  end.

(** [s.split(None, 1)]: up to two parts, split at the first run of
    white space after the first word. *)
Fixpoint word_end (s : string) : string * string :=
  match s with
  | EmptyString => (EmptyString, EmptyString)
  | String c t =>
      if isspace c then (EmptyString, s)
      else let '(w, r) := word_end t in (String c w, r)
  end.

Definition split_ws1 (s : string) : list string :=
  match lstrip s with
  | EmptyString => []
  | s' =>
      let '(w, r) := word_end s' in
      match lstrip r with
      | EmptyString => [w]
      | r' => [w; r']
      end
  end.

(** [sep.join(parts)] *)
Fixpoint join (sep : string) (parts : list string) : string :=
  match parts with
  | [] => EmptyString
  | [p] => p
  | p :: rest => p ++ sep ++ join sep rest
  end.

(** [''.join(parts)] *)
Definition concat (parts : list string) : string := fold_right String.append EmptyString parts.

(** Truth value of a string. *)
Definition truthy (s : string) : bool :=
  match s with EmptyString => false | _ => true end.

End Py.

(** ** Regular expressions, as the [re] module matches them

    A backtracking matcher: [run] lists the ways a pattern matches a
    prefix of the text, most preferred first (greedy repetition, left
    alternative first), each with the text that remains and the groups
    captured so far.  The patterns of the script never repeat a body that
    can match the empty string. *)

Module Re.

Inductive regex : Type :=
| Eps
| Chr (p : ascii -> bool)
| Seq (r1 r2 : regex)
| Alt (r1 r2 : regex)
| Star (r : regex)
| Group (name : string) (r : regex)
| Bos
| Eos.

Definition caps : Type := list (string * string).
Definition outcome : Type := (string * caps)%type.

Definition Plus (r : regex) : regex := Seq r (Star r).
Definition Opt (r : regex) : regex := Alt r Eps.
Definition One (c : ascii) : regex := Chr (Py.eqc c).
Definition Not (c : ascii) : regex := Chr (fun a => negb (Py.eqc c a)).

Fixpoint Lit (s : string) : regex :=
  match s with
  | EmptyString => Eps
  | String c t => Seq (One c) (Lit t)
  end.

(** [\s] and [\w] of a [str] pattern. *)
Definition space : ascii -> bool := Py.isspace.
Definition word (c : ascii) : bool := Py.isalnum c || Py.eqc c "_".

Fixpoint star_from (step : string -> caps -> list outcome) (n : nat)
    (s : string) (c : caps) : list outcome :=
  match n with
  | O => [(s, c)]
  | S n' =>
      flat_map (fun o : outcome =>
                  if Nat.ltb (String.length (fst o)) (String.length s)
                  then star_from step n' (fst o) (snd o) else [])
               (step s c)
      ++ [(s, c)]
  end.

Fixpoint run (whole : string) (r : regex) (s : string) (c : caps) : list outcome :=
  match r with
  | Eps => [(s, c)]
  | Chr p =>
      match s with
      | String a t => if p a then [(t, c)] else []
      | EmptyString => []
      end
  | Seq r1 r2 => flat_map (fun o : outcome => run whole r2 (fst o) (snd o)) (run whole r1 s c)
  | Alt r1 r2 => run whole r1 s c ++ run whole r2 s c
  | Star r' => star_from (run whole r') (String.length s) s c
  | Group name r' =>
      map (fun o : outcome =>
             (fst o, (name, Py.take (String.length s - String.length (fst o)) s) :: snd o))
          (run whole r' s c)
  | Bos => if Nat.eqb (String.length s) (String.length whole) then [(s, c)] else []
  | Eos =>
      match s with
      | EmptyString => [(s, c)]
      | String a EmptyString => if Py.eqc a "010" then [(s, c)] else []
      | _ => []
      end
  end.

(** [pattern.match(s)]: the preferred match at the start of [s]. *)
Definition rmatch (r : regex) (s : string) : option outcome := head (run s r s []).

(** [m.group(name)]; [None] for a group that took no part in the match. *)
Fixpoint group (name : string) (c : caps) : option string :=
  match c with
  | [] => None
  | (n, v) :: rest => if String.eqb n name then Some v else group name rest
  end.

(** [pattern.search(s)] as a truth value, for a pattern without [^]. *)
Fixpoint search (r : regex) (s : string) : bool :=
  match run s r s [] with
  | _ :: _ => true
  | [] => match s with
          | String _ t => search r t
          | EmptyString => false
          end
  end.

(** [re.sub(pattern, repl, s)] for a pattern without [^], [$] and groups
    that matches no empty string.  [skip] counts the characters of the
    current match still to be passed over. *)
Fixpoint sub_from (skip : nat) (r : regex) (repl s : string) : string :=
  match s with
  | EmptyString => EmptyString
  | String a t =>
      match skip with
      | S k => sub_from k r repl t
      | O =>
          match run s r s [] with
          | o :: _ =>
              match String.length s - String.length (fst o) with
              | S k => repl ++ sub_from k r repl t
              | O => String a (sub_from 0 r repl t)
              end
          | [] => String a (sub_from 0 r repl t)
          end
      end
  end.

Definition sub (r : regex) (repl s : string) : string := sub_from 0 r repl s.

End Re.

(** ** The patterns of the script *)

(** [\[\s*FieldOffset\s*\(] *)
Definition FIELD_OFFSET_RE : Re.regex :=
  Re.Seq (Re.One "[") (Re.Seq (Re.Star (Re.Chr Re.space))
    (Re.Seq (Re.Lit "FieldOffset") (Re.Seq (Re.Star (Re.Chr Re.space)) (Re.One "(")))).

(** [^namespace\s+([\w\.]+)\s*(?:\{)?\s*$] *)
Definition NAMESPACE_RE : Re.regex :=
  Re.Seq Re.Bos (Re.Seq (Re.Lit "namespace") (Re.Seq (Re.Plus (Re.Chr Re.space))
    (Re.Seq (Re.Group "1" (Re.Plus (Re.Chr (fun c => Re.word c || Py.eqc c "."))))
    (Re.Seq (Re.Star (Re.Chr Re.space)) (Re.Seq (Re.Opt (Re.One "{"))
    (Re.Seq (Re.Star (Re.Chr Re.space)) Re.Eos)))))).

(** The pattern, as the concatenation of the pieces
      ^(?P<prefix>(?:\[[^\]]+\]\s*
      )*
      )(?P<mods>(?:[\w]+\s+)*
      )(?P<kind>class|struct|enum)\s+
      (?P<name>[\w`]+(?:<[^>]+>)?)
      (?:\s*:\s*(?P<bases>[^\{]+))?\s*(?:\{)?\s*$ *)
Definition TYPE_RE : Re.regex :=
  Re.Seq Re.Bos
  (Re.Seq (Re.Group "prefix"
     (Re.Star (Re.Seq (Re.One "[") (Re.Seq (Re.Plus (Re.Not "]"))
        (Re.Seq (Re.One "]") (Re.Star (Re.Chr Re.space)))))))
  (Re.Seq (Re.Group "mods"
     (Re.Star (Re.Seq (Re.Plus (Re.Chr Re.word)) (Re.Plus (Re.Chr Re.space)))))
  (Re.Seq (Re.Group "kind" (Re.Alt (Re.Lit "class") (Re.Alt (Re.Lit "struct") (Re.Lit "enum"))))
  (Re.Seq (Re.Plus (Re.Chr Re.space))
  (Re.Seq (Re.Group "name"
     (Re.Seq (Re.Plus (Re.Chr (fun c => Re.word c || Py.eqc c "`")))
        (Re.Opt (Re.Seq (Re.One "<") (Re.Seq (Re.Plus (Re.Not ">")) (Re.One ">"))))))
  (Re.Seq (Re.Opt
     (Re.Seq (Re.Star (Re.Chr Re.space)) (Re.Seq (Re.One ":")
        (Re.Seq (Re.Star (Re.Chr Re.space)) (Re.Group "bases" (Re.Plus (Re.Not "{")))))))
  (Re.Seq (Re.Star (Re.Chr Re.space)) (Re.Seq (Re.Opt (Re.One "{"))
  (Re.Seq (Re.Star (Re.Chr Re.space)) Re.Eos))))))))).

(** [[^0-9A-Za-z_]] *)
Definition IDENTIFIER_SANITIZE_RE : Re.regex :=
  Re.Chr (fun c => negb (Py.ascii_digit c || Py.ascii_upper c || Py.ascii_lower c
                         || Py.eqc c "_")).

(** [__+] *)
Definition UNDERSCORES_RE : Re.regex := Re.Seq (Re.One "_") (Re.Plus (Re.One "_")).

(** ** Sanitization *)

Definition sanitize_struct_name (name : string) : string :=
  let sanitized := Py.replace "::" "." name in
  let sanitized := Py.replace "+" "." sanitized in
  let sanitized := Py.replace "/" "." sanitized in
  let sanitized := Py.replace " `" "`" sanitized in
  let sanitized := Py.replace "`" "_" sanitized in
  let sanitized := Py.replace "<" "_" sanitized in
  let sanitized := Py.replace ">" "" sanitized in
  let sanitized := Py.replace "," "_" sanitized in
  let sanitized := Py.replace " " "_" sanitized in
  let sanitized := Py.replace "[" "_" sanitized in
  let sanitized := Py.replace "]" "" sanitized in
  let sanitized := Py.replace "-" "_" sanitized in
  let sanitized := Py.replace ":" "_" sanitized in
  let sanitized := Py.replace "." "_" sanitized in
  let sanitized := Re.sub UNDERSCORES_RE "_" sanitized in
  if Py.startswith "_" sanitized then Py.drop 1 sanitized else sanitized.

Definition sanitize_identifier (name : string) : string :=
  let candidate := Py.strip name in
  let candidate := if Py.startswith "@" candidate then Py.drop 1 candidate else candidate in
  let candidate := Py.replace ">" "_" (Py.replace "<" "_" candidate) in
  let sanitized := Re.sub IDENTIFIER_SANITIZE_RE "_" candidate in
  let sanitized := Re.sub UNDERSCORES_RE "_" sanitized in
  let sanitized :=
    match sanitized with
    | String c _ => if Py.isdigit c then "_" ++ sanitized else sanitized
    | EmptyString => sanitized
    end in
  if Py.truthy sanitized then sanitized else "field".

(** ** Results of fallible code

    [Raise] carries the exception the script would raise.  [StoreError]
    has no counterpart in the script: it marks the use of an index that
    is not in the store, which the invariants below rule out.  [Timeout]
    is the exhaustion of the recursion budget given to [emit]. *)

Inductive exn : Type :=
| IndexError
| ValueError (msg : string)
| SystemExit (msg : string)
| StoreError.

Inductive result (A : Type) : Type :=
| Ok (a : A)
| Raise (e : exn)
| Timeout.

Arguments Ok {A} a.
Arguments Raise {A} e.
Arguments Timeout {A}.

Definition bind {A B : Type} (m : result A) (k : A -> result B) : result B :=
  match m with
  | Ok a => k a
  | Raise e => Raise e
  | Timeout => Timeout
  end.

Notation "x <- m ;; k" := (bind m (fun x => k))
  (at level 100, m at next level, right associativity).

(** ** Data structures used during parsing *)

Record Field : Type := mkField {
  name : string;
  original_type : string;
  is_static : bool;
  c_type : option string;
  referenced : option nat
}.

Record TypeInfo : Type := mkTypeInfo {
  full_name : string;
  short_name : string;
  struct_name : string;
  kind : string;
  parent : option string;
  enum_base : option string;
  fields : list Field;
  static_fields : list Field
}.

Definition is_value_type (t : TypeInfo) : bool :=
  String.eqb (kind t) "struct" || String.eqb (kind t) "enum".

Definition is_enum (t : TypeInfo) : bool := String.eqb (kind t) "enum".

Record Context : Type := mkContext {
  ctx_kind : string;
  ctx_name : string;
  pop_depth : Z;
  type_info : option nat;
  entered : bool
}.

(** The store of [TypeInfo] objects is the list [type_infos] itself. *)
Definition deref (store : list TypeInfo) (i : nat) : result TypeInfo :=
  match store !! i with
  | Some t => Ok t
  | None => Raise StoreError
  end.

(** ** Helpers *)

Definition mem (x : string) (l : list string) : bool := existsb (String.eqb x) l.

Definition MODIFIERS : list string :=
  ["public"; "private"; "protected"; "internal"; "static"; "readonly";
   "volatile"; "unsafe"; "const"; "new"; "sealed"; "abstract"; "extern";
   "partial"; "fixed"].

Definition PRIMITIVE_MAP : gmap string string :=
  list_to_map
  [("bool", "bool"); ("Boolean", "bool"); ("System.Boolean", "bool");
   ("byte", "uint8_t"); ("Byte", "uint8_t"); ("System.Byte", "uint8_t");
   ("sbyte", "int8_t"); ("SByte", "int8_t"); ("System.SByte", "int8_t");
   ("short", "int16_t"); ("Int16", "int16_t"); ("System.Int16", "int16_t");
   ("ushort", "uint16_t"); ("UInt16", "uint16_t"); ("System.UInt16", "uint16_t");
   ("char", "uint16_t"); ("Char", "uint16_t"); ("System.Char", "uint16_t");
   ("int", "int32_t"); ("Int32", "int32_t"); ("System.Int32", "int32_t");
   ("uint", "uint32_t"); ("UInt32", "uint32_t"); ("System.UInt32", "uint32_t");
   ("long", "int64_t"); ("Int64", "int64_t"); ("System.Int64", "int64_t");
   ("ulong", "uint64_t"); ("UInt64", "uint64_t"); ("System.UInt64", "uint64_t");
   ("float", "float"); ("Single", "float"); ("System.Single", "float");
   ("double", "double"); ("Double", "double"); ("System.Double", "double");
   ("string", "System_String_o*"); ("String", "System_String_o*");
   ("System.String", "System_String_o*");
   ("void", "void");
   ("IntPtr", "intptr_t"); ("System.IntPtr", "intptr_t");
   ("UIntPtr", "uintptr_t"); ("System.UIntPtr", "uintptr_t");
   ("object", "Il2CppObject*"); ("Object", "Il2CppObject*");
   ("System.Object", "Il2CppObject*")].

Definition IGNORED_BASES : list string :=
  ["object"; "System.Object"; "Il2CppSystem.Object"; "ValueType"; "System.ValueType"].

(** The loop of [strip_modifiers]; every round but the last shortens
    [remaining], so its length bounds the number of rounds. *)
Fixpoint strip_modifiers_loop (rounds : nat) (remaining : string) : string :=
  match rounds with
  | O => remaining
  | S n =>
      match Py.split_ws1 remaining with
      | [p] => if mem p MODIFIERS then "" else remaining
      | p :: rest :: _ => if mem p MODIFIERS then strip_modifiers_loop n rest else remaining
      | [] => remaining
      end
  end.

Definition strip_modifiers (declaration : string) : string :=
  let remaining := Py.strip declaration in
  strip_modifiers_loop (S (String.length remaining)) remaining.

(** The [for] loop of [split_type_and_name]: the index of the first white
    space outside brackets. *)
Fixpoint find_type_end (depth index : nat) (s : string) : option nat :=
  match s with
  | EmptyString => None
  | String char t =>
      if Py.eqc char "<" || Py.eqc char "[" then find_type_end (depth + 1) (S index) t
      else if Py.eqc char ">" || Py.eqc char "]" then find_type_end (Nat.max (depth - 1) 0) (S index) t
      else if Py.isspace char && Nat.eqb depth 0 then Some index
      else find_type_end depth (S index) t
  end.

Definition split_type_and_name (declaration : string) : result (string * string) :=
  let declaration := Py.strip declaration in
  let declaration := Py.rstrip_by (Py.eqc ";") declaration in
  let declaration :=
    if Py.contains "//" declaration then Py.rstrip (Py.before "//" declaration)
    else declaration in
  let declaration := strip_modifiers declaration in
  if negb (Py.truthy declaration)
  then Raise (ValueError "Empty declaration after removing modifiers")
  else
    match find_type_end 0 0 declaration with
    | None => Raise (ValueError ("Cannot split declaration: " ++ declaration))
    | Some type_end =>
        let type_part := Py.take type_end declaration in
        let rest := Py.strip (Py.drop type_end declaration) in
        let name_part := Py.strip (Py.before "=" rest) in
        Ok (type_part, name_part)
    end.

Definition normalise_type_name (name : string) : string :=
  let name := Py.strip name in
  let name := if Py.startswith "global::" name
              then Py.drop (String.length "global::") name else name in
  Py.replace "+" "." (Py.replace "::" "." name).

(** [AliasMap]: a name is bound to a type ([Some i]) or marked ambiguous
    ([None], the script's [None] value). *)
Module AliasMap.

Definition add (alias : string) (info : nat) (m : gmap string (option nat))
  : gmap string (option nat) :=
  let alias := normalise_type_name alias in
  match m !! alias with
  | None => <[alias := Some info]> m
  | Some existing =>
      match existing with
      | Some e => if Nat.eqb e info then m else <[alias := None]> m
      | None => m
      end
  end.

(** [self._map.get(name)] as tested by [if candidate:]. *)
Definition get (m : gmap string (option nat)) (name : string) : option nat :=
  match m !! name with
  | Some (Some i) => Some i
  | _ => None
  end.

Definition resolve (name : string) (m : gmap string (option nat)) : result (option nat) :=
  let name := normalise_type_name name in
  match get m name with
  | Some i => Ok (Some i)
  | None =>
      match last (Py.split "." name) with
      | None => Raise IndexError
      | Some simple =>
          match get m simple with
          | Some i => Ok (Some i)
          | None => Ok None
          end
      end
  end.

End AliasMap.

(** ** Parsing implementation *)

Definition LF : ascii := "010".
Definition CR : ascii := "013".

(** The lines a text-mode file yields, each with its terminator; the
    terminators CR LF and CR read as LF.  [after_cr] holds right after a
    carriage return. *)
Fixpoint file_lines_from (after_cr : bool) (text : string) : list string :=
  match text with
  | EmptyString => []
  | String c t =>
      if after_cr && Py.eqc c LF then file_lines_from false t
      else if Py.eqc c LF then String LF EmptyString :: file_lines_from false t
      else if Py.eqc c CR then String LF EmptyString :: file_lines_from true t
      else match file_lines_from false t with
           | h :: r => String c h :: r
           | [] => [String c EmptyString]
           end
  end.

Definition file_lines (text : string) : list string := file_lines_from false text.

Record ParseState : Type := mkParseState {
  type_infos : list TypeInfo;
  alias_map : gmap string (option nat);
  contexts : list Context;
  brace_depth : Z;
  pending_field : bool;
  current_type : option nat
}.

(** [[ctx.type_info.short_name for ctx in contexts if ctx.kind == "type"]] *)
Fixpoint type_parts (store : list TypeInfo) (ctxs : list Context) : result (list string) :=
  match ctxs with
  | [] => Ok []
  | ctx :: rest =>
      if String.eqb (ctx_kind ctx) "type" then
        match type_info ctx with
        | None => Raise StoreError
        | Some i =>
            t <- deref store i ;;
            parts <- type_parts store rest ;;
            Ok (short_name t :: parts)
        end
      else type_parts store rest
  end.

Definition namespace_parts (ctxs : list Context) : list string :=
  map ctx_name (filter (fun ctx => String.eqb (ctx_kind ctx) "namespace" = true) ctxs).

Definition base_candidates (bases : string) : list string :=
  map Py.strip (filter (fun b => Py.truthy (Py.strip b) = true) (Py.split "," bases)).

(** The first base that is not ignored. *)
Fixpoint first_parent (candidates : list string) : option string :=
  match candidates with
  | [] => None
  | candidate :: rest =>
      if mem candidate IGNORED_BASES then first_parent rest else Some candidate
  end.

Definition block_depth (new_depth depth : Z) (open_braces : nat) : Z :=
  if Nat.ltb 0 open_braces then new_depth else (depth + 1)%Z.

(** The branch of a namespace opener. *)
Definition open_namespace (st : ParseState) (m : Re.caps) (new_depth : Z)
    (open_braces : nat) : ParseState :=
  let namespace_name := default "" (Re.group "1" m) in
  let ctx := mkContext "namespace" namespace_name
               (block_depth new_depth (brace_depth st) open_braces) None
               (Nat.ltb 0 open_braces) in
  mkParseState (type_infos st) (alias_map st) (contexts st ++ [ctx]) (brace_depth st)
    (pending_field st) (current_type st).

(** The branch of a type opener. *)
Definition open_type (st : ParseState) (m : Re.caps) (new_depth : Z)
    (open_braces : nat) : result ParseState :=
  let kind := default "" (Re.group "kind" m) in
  let name := default "" (Re.group "name" m) in
  bases_result <-
    match Re.group "bases" m with
    | Some bases =>
        if Py.truthy bases then
          let candidates := base_candidates bases in
          if String.eqb kind "enum" then
            match candidates with
            | first :: _ => Ok (None, Some first)
            | [] => Raise IndexError
            end
          else Ok (first_parent candidates, None)
        else Ok (None, None)
    | None => Ok (None, None)
    end ;;
  let parent := fst bases_result in
  let enum_base := snd bases_result in
  let nparts := namespace_parts (contexts st) in
  tparts <- type_parts (type_infos st) (contexts st) ;;
  let short_name := name in
  let full_name :=
    match (nparts ++ tparts)%list with
    | [] => short_name
    | parts => Py.join "." (parts ++ [short_name])%list
    end in
  let struct_name := sanitize_struct_name full_name in
  let info := mkTypeInfo full_name short_name struct_name kind parent enum_base [] [] in
  let id := length (type_infos st) in
  let amap := AliasMap.add short_name id (AliasMap.add full_name id (alias_map st)) in
  let ctx := mkContext "type" short_name
               (block_depth new_depth (brace_depth st) open_braces) (Some id)
               (Nat.ltb 0 open_braces) in
  Ok (mkParseState (type_infos st ++ [info]) amap (contexts st ++ [ctx]) (brace_depth st)
        false (Some id)).

Definition append_field (field : Field) (t : TypeInfo) : TypeInfo :=
  if is_static field
  then mkTypeInfo (full_name t) (short_name t) (struct_name t) (kind t) (parent t)
         (enum_base t) (fields t) (static_fields t ++ [field])
  else mkTypeInfo (full_name t) (short_name t) (struct_name t) (kind t) (parent t)
         (enum_base t) (fields t ++ [field]) (static_fields t).

(** The branch of a declaration line that follows a field-offset marker. *)
Definition read_field (st : ParseState) (cur : nat) (stripped : string) : result ParseState :=
  match split_type_and_name stripped with
  | Raise (ValueError _) =>
      Ok (mkParseState (type_infos st) (alias_map st) (contexts st) (brace_depth st)
            false (current_type st))
  | Raise e => Raise e
  | Timeout => Timeout
  | Ok (type_part, name_part) =>
      let is_static := Py.contains " static " (" " ++ stripped ++ " ") in
      let field := mkField (sanitize_identifier name_part) type_part is_static None None in
      t <- deref (type_infos st) cur ;;
      Ok (mkParseState (<[cur := append_field field t]> (type_infos st)) (alias_map st)
            (contexts st) (brace_depth st) false (current_type st))
  end.

Definition mark_entered (depth : Z) (ctx : Context) : Context :=
  if negb (entered ctx) && (pop_depth ctx <=? depth)%Z
  then mkContext (ctx_kind ctx) (ctx_name ctx) (pop_depth ctx) (type_info ctx) true
  else ctx.

(** [for context in reversed(contexts)], on the stack with its top first. *)
Fixpoint nearest_type (stack : list Context) : option nat :=
  match stack with
  | [] => None
  | ctx :: below =>
      if String.eqb (ctx_kind ctx) "type" && entered ctx then type_info ctx
      else nearest_type below
  end.

(** The [while] loop that pops closed contexts, on the stack with its top
    first. *)
Fixpoint pop_contexts (depth : Z) (stack : list Context) (cur : option nat)
  : list Context * option nat :=
  match stack with
  | [] => ([], cur)
  | top :: below =>
      if entered top && (depth <? pop_depth top)%Z
      then pop_contexts depth below
             (if String.eqb (ctx_kind top) "type" then nearest_type below else cur)
      else (stack, cur)
  end.

Definition close_line (st : ParseState) (new_depth : Z) : ParseState :=
  let ctxs := map (mark_entered new_depth) (contexts st) in
  let '(stack, cur) := pop_contexts new_depth (rev ctxs) (current_type st) in
  mkParseState (type_infos st) (alias_map st) (rev stack) new_depth (pending_field st) cur.

(** The body of the loop over the lines of the dump. *)
Definition parse_line (st : ParseState) (raw_line : string) : result ParseState :=
  let line := Py.rstrip raw_line in
  let stripped := Py.strip line in
  let open_braces := Py.count "{" line in
  let close_braces := Py.count "}" line in
  let new_depth := (brace_depth st + Z.of_nat open_braces - Z.of_nat close_braces)%Z in
  let namespace_match := Re.rmatch NAMESPACE_RE stripped in
  let type_match := Re.rmatch TYPE_RE stripped in
  st' <-
    match namespace_match with
    | Some m => Ok (open_namespace st (snd m) new_depth open_braces)
    | None =>
        match type_match with
        | Some m => open_type st (snd m) new_depth open_braces
        | None =>
            if Re.search FIELD_OFFSET_RE stripped then
              Ok (mkParseState (type_infos st) (alias_map st) (contexts st) (brace_depth st)
                    true (current_type st))
            else
              match current_type st with
              | Some cur =>
                  if pending_field st && Py.truthy stripped
                     && negb (Py.startswith "[" stripped)
                  then read_field st cur stripped
                  else Ok st
              | None => Ok st
              end
        end
    end ;;
  Ok (close_line st' new_depth).

Fixpoint parse_lines (st : ParseState) (lines : list string) : result ParseState :=
  match lines with
  | [] => Ok st
  | raw_line :: rest => st' <- parse_line st raw_line ;; parse_lines st' rest
  end.

Definition initial_state : ParseState := mkParseState [] ∅ [] 0%Z false None.

(** [parse_dump], on the text of the dump file. *)
Definition parse_dump (text : string) : result (list TypeInfo * gmap string (option nat)) :=
  st <- parse_lines initial_state (file_lines text) ;;
  Ok (type_infos st, alias_map st).

(** ** Header templates copied from HeaderConstants.cs *)

Definition GENERIC_HEADER : string :=
"typedef void(*Il2CppMethodPointer)();

struct MethodInfo;

struct VirtualInvokeData
{
    Il2CppMethodPointer methodPtr;
    const MethodInfo* method;
};

struct Il2CppType
{
    void* data;
    unsigned int bits;
};

struct Il2CppClass;

struct Il2CppObject
{
    Il2CppClass *klass;
    void *monitor;
};

union Il2CppRGCTXData
{
    void* rgctxDataDummy;
    const MethodInfo* method;
    const Il2CppType* type;
    Il2CppClass* klass;
};

struct Il2CppRuntimeInterfaceOffsetPair
{
    Il2CppClass* interfaceType;
    int32_t offset;
};

".

Definition HEADER_22 : string :=
"struct Il2CppClass
{
    void* image;
    void* gc_desc;
    const char* name;
    const char* namespaze;
    Il2CppType byval_arg;
    Il2CppType this_arg;
    Il2CppClass* element_class;
    Il2CppClass* castClass;
    Il2CppClass* declaringType;
    Il2CppClass* parent;
    void *generic_class;
    void *typeDefinition;
    void *interopData;
    Il2CppClass* klass;
    void* fields;
    void* events;
    void* properties;
    void* methods;
    Il2CppClass** nestedTypes;
    Il2CppClass** implementedInterfaces;
    Il2CppRuntimeInterfaceOffsetPair* interfaceOffsets;
    int32_t cctor_started;
    uint32_t cctor_finished;
    size_t cctor_thread;
    int32_t static_fields_size;
    uint32_t instance_size;
    uint32_t actualSize;
    uint32_t element_size;
    int32_t native_size;
    uint32_t static_fields_count;
    uint32_t thread_static_fields_size;
    int32_t thread_static_fields_offset;
    uint32_t flags;
    uint32_t token;
    uint16_t method_count;
    uint16_t property_count;
    uint16_t field_count;
    uint16_t event_count;
    uint16_t nested_type_count;
    uint16_t vtable_count;
    uint16_t interfaces_count;
    uint16_t interface_offsets_count;
    uint8_t typeHierarchyDepth;
    uint8_t genericRecursionDepth;
    uint8_t rank;
    uint8_t minimumAlignment;
    uint8_t naturalAligment;
    uint8_t packingSize;
    uint8_t bitflags;
    VirtualInvokeData vtable[255];
};

typedef uintptr_t il2cpp_array_size_t;
typedef int32_t il2cpp_array_lower_bound_t;
struct Il2CppArrayBounds
{
    il2cpp_array_size_t length;
    il2cpp_array_lower_bound_t lower_bound;
};

struct Il2CppArray
{
    Il2CppClass *klass;
    void *monitor;
    void *bounds;
    il2cpp_array_size_t max_length;
    void *vector[32];
};

struct MethodInfo
{
    Il2CppMethodPointer methodPointer;
    Il2CppMethodPointer virtualMethodPointer;
    const void *invoker_method;
    const char* name;
    Il2CppClass *klass;
    const Il2CppType *return_type;
    const Il2CppType** parameters;
    const Il2CppRGCTXData* rgctx_data;
    const void* generic_method;
    uint32_t token;
    uint16_t flags;
    uint16_t iflags;
    uint16_t slot;
    uint8_t parameters_count;
    uint8_t bitflags;
};

".

Definition HEADER_24 : string :=
"struct Il2CppClass_1
{
    void* image;
    void* gc_desc;
    const char* name;
    const char* namespaze;
    Il2CppType byval_arg;
    Il2CppType this_arg;
    Il2CppClass* element_class;
    Il2CppClass* castClass;
    Il2CppClass* declaringType;
    Il2CppClass* parent;
    void *generic_class;
    void *typeDefinition;
    void *interopData;
    Il2CppClass* klass;
    void* fields;
    void* events;
    void* properties;
    void* methods;
    Il2CppClass** nestedTypes;
    Il2CppClass** implementedInterfaces;
    Il2CppRuntimeInterfaceOffsetPair* interfaceOffsets;
};

struct Il2CppClass_2
{
    Il2CppClass** typeHierarchy;
    void *unity_user_data;
    uint32_t initializationExceptionGCHandle;
    uint32_t cctor_started;
    uint32_t cctor_finished;
    size_t cctor_thread;
    int32_t static_fields_size;
    uint32_t instance_size;
    uint32_t actualSize;
    uint32_t element_size;
    int32_t native_size;
    uint32_t static_fields_count;
    uint32_t thread_static_fields_size;
    int32_t thread_static_fields_offset;
    uint32_t flags;
    uint32_t token;
    uint16_t method_count;
    uint16_t property_count;
    uint16_t field_count;
    uint16_t event_count;
    uint16_t nested_type_count;
    uint16_t vtable_count;
    uint16_t interfaces_count;
    uint16_t interface_offsets_count;
    uint8_t typeHierarchyDepth;
    uint8_t genericRecursionDepth;
    uint8_t rank;
    uint8_t minimumAlignment;
    uint8_t naturalAligment;
    uint8_t packingSize;
    uint8_t bitflags;
};

struct Il2CppClass
{
    Il2CppClass_1 _1;
    void* static_fields;
    const void* rgctx_data;
    Il2CppClass_2 _2;
    VirtualInvokeData vtable[255];
};

typedef uintptr_t il2cpp_array_size_t;
typedef int32_t il2cpp_array_lower_bound_t;
struct Il2CppArrayBounds
{
    il2cpp_array_size_t length;
    il2cpp_array_lower_bound_t lower_bound;
};

struct Il2CppArray
{
    Il2CppClass *klass;
    void *monitor;
    void *bounds;
    il2cpp_array_size_t max_length;
    void *vector[32];
};

struct MethodInfo
{
    Il2CppMethodPointer methodPointer;
    Il2CppMethodPointer virtualMethodPointer;
    const void *invoker_method;
    const char* name;
    Il2CppClass *klass;
    const Il2CppType *return_type;
    const Il2CppType** parameters;
    const Il2CppRGCTXData* rgctx_data;
    const void* genericMethod;
    uint32_t token;
    uint16_t flags;
    uint16_t iflags;
    uint16_t slot;
    uint8_t parameters_count;
    uint8_t bitflags;
};

".

Definition HEADER_24_1 : string :=
"struct Il2CppClass_1
{
    void* image;
    void* gc_desc;
    const char* name;
    const char* namespaze;
    Il2CppType byval_arg;
    Il2CppType this_arg;
    Il2CppClass* element_class;
    Il2CppClass* castClass;
    Il2CppClass* declaringType;
    Il2CppClass* parent;
    void *generic_class;
    void *typeDefinition;
    void *interopData;
    Il2CppClass* klass;
    void* fields;
    void* events;
    void* properties;
    void* methods;
    Il2CppClass** nestedTypes;
    Il2CppClass** implementedInterfaces;
    Il2CppRuntimeInterfaceOffsetPair* interfaceOffsets;
};

struct Il2CppClass_2
{
    Il2CppClass** typeHierarchy;
    void *unity_user_data;
    uint32_t initializationExceptionGCHandle;
    uint32_t cctor_started;
    uint32_t cctor_finished;
    size_t cctor_thread;
    void* genericContainerHandle;
    int32_t static_fields_size;
    uint32_t instance_size;
    uint32_t actualSize;
    uint32_t element_size;
    int32_t native_size;
    uint32_t static_fields_count;
    uint32_t thread_static_fields_size;
    int32_t thread_static_fields_offset;
    uint32_t flags;
    uint32_t token;
    uint16_t method_count;
    uint16_t property_count;
    uint16_t field_count;
    uint16_t event_count;
    uint16_t nested_type_count;
    uint16_t vtable_count;
    uint16_t interfaces_count;
    uint16_t interface_offsets_count;
    uint8_t typeHierarchyDepth;
    uint8_t genericRecursionDepth;
    uint8_t rank;
    uint8_t minimumAlignment;
    uint8_t naturalAligment;
    uint8_t packingSize;
    uint8_t bitflags;
};

struct Il2CppClass
{
    Il2CppClass_1 _1;
    void* static_fields;
    const void* rgctx_data;
    Il2CppClass_2 _2;
    VirtualInvokeData vtable[255];
};

typedef uintptr_t il2cpp_array_size_t;
typedef int32_t il2cpp_array_lower_bound_t;
struct Il2CppArrayBounds
{
    il2cpp_array_size_t length;
    il2cpp_array_lower_bound_t lower_bound;
};

struct Il2CppArray
{
    Il2CppClass *klass;
    void *monitor;
    void *bounds;
    il2cpp_array_size_t max_length;
    void *vector[32];
};

struct MethodInfo
{
    Il2CppMethodPointer methodPointer;
    Il2CppMethodPointer virtualMethodPointer;
    const void *invoker_method;
    const char* name;
    Il2CppClass *klass;
    const Il2CppType *return_type;
    const Il2CppType** parameters;
    const Il2CppRGCTXData* rgctx_data;
    const void* methodMetadataHandle;
    const void* genericMethod;
    uint32_t token;
    uint16_t flags;
    uint16_t iflags;
    uint16_t slot;
    uint8_t parameters_count;
    uint8_t bitflags;
};

".

Definition HEADER_24_2 : string :=
"struct Il2CppClass_1
{
    void* image;
    void* gc_desc;
    const char* name;
    const char* namespaze;
    Il2CppType byval_arg;
    Il2CppType this_arg;
    Il2CppClass* element_class;
    Il2CppClass* castClass;
    Il2CppClass* declaringType;
    Il2CppClass* parent;
    void *generic_class;
    void *typeMetadataHandle;
    void *interopData;
    Il2CppClass* klass;
    void* fields;
    void* events;
    void* properties;
    void* methods;
    Il2CppClass** nestedTypes;
    Il2CppClass** implementedInterfaces;
    Il2CppRuntimeInterfaceOffsetPair* interfaceOffsets;
};

struct Il2CppClass_2
{
    Il2CppClass** typeHierarchy;
    void *unity_user_data;
    uint32_t initializationExceptionGCHandle;
    uint32_t cctor_started;
    uint32_t cctor_finished;
    size_t cctor_thread;
    void* genericContainerHandle;
    uint32_t instance_size;
    uint32_t actualSize;
    uint32_t element_size;
    int32_t native_size;
    uint32_t static_fields_size;
    uint32_t thread_static_fields_size;
    int32_t thread_static_fields_offset;
    uint32_t flags;
    uint32_t token;
    uint16_t method_count;
    uint16_t property_count;
    uint16_t field_count;
    uint16_t event_count;
    uint16_t nested_type_count;
    uint16_t vtable_count;
    uint16_t interfaces_count;
    uint16_t interface_offsets_count;
    uint8_t typeHierarchyDepth;
    uint8_t genericRecursionDepth;
    uint8_t rank;
    uint8_t minimumAlignment;
    uint8_t naturalAligment;
    uint8_t packingSize;
    uint8_t bitflags;
};

struct Il2CppClass
{
    Il2CppClass_1 _1;
    void* static_fields;
    const void* rgctx_data;
    Il2CppClass_2 _2;
    VirtualInvokeData vtable[255];
};

typedef uintptr_t il2cpp_array_size_t;
typedef int32_t il2cpp_array_lower_bound_t;
struct Il2CppArrayBounds
{
    il2cpp_array_size_t length;
    il2cpp_array_lower_bound_t lower_bound;
};

struct Il2CppArray
{
    Il2CppClass *klass;
    void *monitor;
    void *bounds;
    il2cpp_array_size_t max_length;
    void *vector[32];
};

struct MethodInfo
{
    Il2CppMethodPointer methodPointer;
    Il2CppMethodPointer virtualMethodPointer;
    const void *invoker_method;
    const char* name;
    Il2CppClass *klass;
    const Il2CppType *return_type;
    const Il2CppType** parameters;
    const Il2CppRGCTXData* rgctx_data;
    const void* methodMetadataHandle;
    const void* genericMethod;
    uint32_t token;
    uint16_t flags;
    uint16_t iflags;
    uint16_t slot;
    uint8_t parameters_count;
    uint8_t bitflags;
};

".

Definition HEADER_27 : string :=
"struct Il2CppClass_1
{
    void* image;
    void* gc_desc;
    const char* name;
    const char* namespaze;
    Il2CppType byval_arg;
    Il2CppType this_arg;
    Il2CppClass* element_class;
    Il2CppClass* castClass;
    Il2CppClass* declaringType;
    Il2CppClass* parent;
    void *generic_class;
    void* typeMetadataHandle;
    void* interopData;
    Il2CppClass* klass;
    void* fields;
    void* events;
    void* properties;
    void* methods;
    Il2CppClass** nestedTypes;
    Il2CppClass** implementedInterfaces;
    Il2CppRuntimeInterfaceOffsetPair* interfaceOffsets;
};

struct Il2CppClass_2
{
    Il2CppClass** typeHierarchy;
    void *unity_user_data;
    uint32_t initializationExceptionGCHandle;
    uint32_t cctor_started;
    uint32_t cctor_finished;
    size_t cctor_thread;
    void* genericContainerHandle;
    uint32_t instance_size;
    uint32_t actualSize;
    uint32_t element_size;
    int32_t native_size;
    uint32_t static_fields_size;
    uint32_t thread_static_fields_size;
    int32_t thread_static_fields_offset;
    uint32_t flags;
    uint32_t token;
    uint16_t method_count;
    uint16_t property_count;
    uint16_t field_count;
    uint16_t event_count;
    uint16_t nested_type_count;
    uint16_t vtable_count;
    uint16_t interfaces_count;
    uint16_t interface_offsets_count;
    uint8_t typeHierarchyDepth;
    uint8_t genericRecursionDepth;
    uint8_t rank;
    uint8_t minimumAlignment;
    uint8_t naturalAligment;
    uint8_t packingSize;
    uint8_t bitflags1;
    uint8_t bitflags2;
};

struct Il2CppClass
{
    Il2CppClass_1 _1;
    void* static_fields;
    Il2CppRGCTXData* rgctx_data;
    Il2CppClass_2 _2;
    VirtualInvokeData vtable[255];
};

typedef uintptr_t il2cpp_array_size_t;
typedef int32_t il2cpp_array_lower_bound_t;
struct Il2CppArrayBounds
{
    il2cpp_array_size_t length;
    il2cpp_array_lower_bound_t lower_bound;
};

typedef void (*InvokerMethod)(Il2CppMethodPointer, const MethodInfo*, void*, void**, void*);
struct MethodInfo
{
    Il2CppMethodPointer methodPointer;
    Il2CppMethodPointer virtualMethodPointer;
    InvokerMethod invoker_method;
    const char* name;
    Il2CppClass *klass;
    const Il2CppType *return_type;
    const Il2CppType** parameters;
    union
    {
        const Il2CppRGCTXData* rgctx_data;
        const void* methodMetadataHandle;
    };
    union
    {
        const void* genericMethod;
        const void* genericContainerHandle;
    };
    uint32_t token;
    uint16_t flags;
    uint16_t iflags;
    uint16_t slot;
    uint8_t parameters_count;
    uint8_t bitflags;
};

".

Definition HEADER_29 : string :=
"struct Il2CppClass_1
{
    void* image;
    void* gc_desc;
    const char* name;
    const char* namespaze;
    Il2CppType byval_arg;
    Il2CppType this_arg;
    Il2CppClass* element_class;
    Il2CppClass* castClass;
    Il2CppClass* declaringType;
    Il2CppClass* parent;
    void *generic_class;
    void* typeMetadataHandle;
    void* interopData;
    Il2CppClass* klass;
    void* fields;
    void* events;
    void* properties;
    void* methods;
    Il2CppClass** nestedTypes;
    Il2CppClass** implementedInterfaces;
    Il2CppRuntimeInterfaceOffsetPair* interfaceOffsets;
};

struct Il2CppClass_2
{
    Il2CppClass** typeHierarchy;
    void *unity_user_data;
    uint32_t initializationExceptionGCHandle;
    uint32_t cctor_started;
    uint32_t cctor_finished;
    size_t cctor_thread;
    void* genericContainerHandle;
    uint32_t instance_size;
    uint32_t actualSize;
    uint32_t element_size;
    int32_t native_size;
    uint32_t static_fields_size;
    uint32_t thread_static_fields_size;
    int32_t thread_static_fields_offset;
    uint32_t flags;
    uint32_t token;
    uint16_t method_count;
    uint16_t property_count;
    uint16_t field_count;
    uint16_t event_count;
    uint16_t nested_type_count;
    uint16_t vtable_count;
    uint16_t interfaces_count;
    uint16_t interface_offsets_count;
    uint8_t typeHierarchyDepth;
    uint8_t genericRecursionDepth;
    uint8_t rank;
    uint8_t minimumAlignment;
    uint8_t naturalAligment;
    uint8_t packingSize;
    uint8_t bitflags1;
    uint8_t bitflags2;
};

struct Il2CppClass
{
    Il2CppClass_1 _1;
    void* static_fields;
    Il2CppRGCTXData* rgctx_data;
    Il2CppClass_2 _2;
    VirtualInvokeData vtable[255];
};

typedef uintptr_t il2cpp_array_size_t;
typedef int32_t il2cpp_array_lower_bound_t;
struct Il2CppArrayBounds
{
    il2cpp_array_size_t length;
    il2cpp_array_lower_bound_t lower_bound;
};

typedef void (*InvokerMethod)(Il2CppMethodPointer, const MethodInfo*, void*, void**, void*);
struct MethodInfo
{
    Il2CppMethodPointer methodPointer;
    Il2CppMethodPointer virtualMethodPointer;
    InvokerMethod invoker_method;
    const char* name;
    Il2CppClass *klass;
    const Il2CppType *return_type;
    const Il2CppType** parameters;
    union
    {
        const Il2CppRGCTXData* rgctx_data;
        const void* methodMetadataHandle;
    };
    union
    {
        const void* genericMethod;
        const void* genericContainerHandle;
    };
    uint32_t token;
    uint16_t flags;
    uint16_t iflags;
    uint16_t slot;
    uint8_t parameters_count;
    uint8_t bitflags;
};

".

Definition HEADER_VARIANTS : gmap string string :=
  list_to_map [("22", HEADER_22); ("24", HEADER_24); ("24.1", HEADER_24_1); ("24.2", HEADER_24_2); ("27", HEADER_27); ("29", HEADER_29)].

(** ** Type resolution *)

(** [while working.endswith("*")]: every round shortens [working]. *)
Fixpoint strip_pointers (rounds : nat) (working pointer_suffix : string) : string * string :=
  match rounds with
  | O => (working, pointer_suffix)
  | S n =>
      if Py.endswith "*" working
      then strip_pointers n (Py.rstrip (Py.drop_last 1 working)) (pointer_suffix ++ "*")
      else (working, pointer_suffix)
  end.

(** [while working.endswith("[]")]: every round shortens [working]. *)
Fixpoint strip_arrays (rounds : nat) (working : string) (array_count : nat) : string * nat :=
  match rounds with
  | O => (working, array_count)
  | S n =>
      if Py.endswith "[]" working
      then strip_arrays n (Py.rstrip (Py.drop_last 2 working)) (array_count + 1)
      else (working, array_count)
  end.

(** The first half of [convert_type]: the base name, the pointer suffix
    and the number of array markers of a declared type. *)
Definition split_markers (original_type : string) : string * string * nat :=
  let working := Py.strip original_type in
  let '(working, pointer_suffix) := strip_pointers (S (String.length working)) working "" in
  let '(working, array_count) := strip_arrays (S (String.length working)) working 0 in
  let nullable := Py.endswith "?" working in
  let working := if nullable then Py.drop_last 1 working else working in
  let working := Py.replace "?" "" working in
  let working := Py.strip working in
  (working, pointer_suffix, array_count).

(** [PRIMITIVE_MAP.get(key)] as tested by [if primitive:]. *)
Definition primitive_of (key : string) : option string :=
  match PRIMITIVE_MAP !! key with
  | Some p => if Py.truthy p then Some p else None
  | None => None
  end.

(** [referenced.enum_base or "int32_t"] *)
Definition enum_key (enum_base : option string) : string :=
  match enum_base with
  | Some b => if Py.truthy b then b else "int32_t"
  | None => "int32_t"
  end.

Definition convert_type (original_type : string) (alias_map : gmap string (option nat))
    (store : list TypeInfo) : result (string * option nat) :=
  let '(working, pointer_suffix, array_count) := split_markers original_type in
  match primitive_of working with
  | Some primitive =>
      if Nat.ltb 0 array_count then Ok ("Il2CppArray*" ++ "", None)
      else Ok (primitive ++ pointer_suffix, None)
  | None =>
      found <- AliasMap.resolve working alias_map ;;
      match found with
      | Some i =>
          referenced <- deref store i ;;
          let base :=
            if is_enum referenced
            then default "int32_t" (PRIMITIVE_MAP !! enum_key (enum_base referenced))
            else if is_value_type referenced then struct_name referenced ++ "_o"
            else struct_name referenced ++ "_o*" in
          let dependency := if is_value_type referenced then Some i else None in
          if Nat.ltb 0 array_count then Ok ("Il2CppArray*" ++ "", dependency)
          else Ok (base ++ pointer_suffix, dependency)
      | None =>
          if Nat.ltb 0 array_count then Ok ("Il2CppArray*", None)
          else if mem working ["IntPtr"; "System.IntPtr"]
          then Ok ("intptr_t" ++ pointer_suffix, None)
          else Ok ("Il2CppObject*", None)
      end
  end.

(** A loop over a list whose body may raise. *)
Fixpoint mapM {A B : Type} (f : A -> result B) (l : list A) : result (list B) :=
  match l with
  | [] => Ok []
  | a :: rest => b <- f a ;; bs <- mapM f rest ;; Ok (b :: bs)
  end.

Fixpoint foldM {S A : Type} (f : S -> A -> result S) (s : S) (l : list A) : result S :=
  match l with
  | [] => Ok s
  | a :: rest => s' <- f s a ;; foldM f s' rest
  end.

Definition resolve_field (alias_map : gmap string (option nat)) (store : list TypeInfo)
    (field : Field) : result Field :=
  r <- convert_type (original_type field) alias_map store ;;
  Ok (mkField (name field) (original_type field) (is_static field) (Some (fst r)) (snd r)).

Definition resolve_type (alias_map : gmap string (option nat)) (store : list TypeInfo)
    (info : TypeInfo) : result TypeInfo :=
  fs <- mapM (resolve_field alias_map store) (fields info) ;;
  sfs <- mapM (resolve_field alias_map store) (static_fields info) ;;
  Ok (mkTypeInfo (full_name info) (short_name info) (struct_name info) (kind info)
        (parent info) (enum_base info) fs sfs).

(** [resolve_field_types] writes [c_type] and [referenced] into every
    field; the names, kinds and bases that [convert_type] reads stay as
    they are, so the store it reads may be the one before the loop. *)
Definition resolve_field_types (type_infos : list TypeInfo)
    (alias_map : gmap string (option nat)) : result (list TypeInfo) :=
  mapM (resolve_type alias_map type_infos) type_infos.

(** ** Header rendering *)

(** [if info.parent: parent_info = alias_map.resolve(info.parent)] *)
Definition resolve_parent (alias_map : gmap string (option nat)) (info : TypeInfo)
  : result (option nat) :=
  match parent info with
  | Some p => if Py.truthy p then AliasMap.resolve p alias_map else Ok None
  | None => Ok None
  end.

Definition nl : string := String LF EmptyString.
Definition tab : string := String "009" EmptyString.

(** One member line; a field without a C type is passed over. *)
Definition field_line (field : Field) : list string :=
  match c_type field with
  | Some t => if Py.truthy t then [tab ++ t ++ " " ++ name field ++ ";" ++ nl] else []
  | None => []
  end.

Definition fields_head (fields_struct_name : string) (parent_decl : option string) : string :=
  match parent_decl with
  | Some p =>
      if Py.truthy p
      then "struct " ++ fields_struct_name ++ " : " ++ p ++ "_Fields" ++ nl ++ "{" ++ nl
      else "struct " ++ fields_struct_name ++ nl ++ "{" ++ nl
  | None => "struct " ++ fields_struct_name ++ nl ++ "{" ++ nl
  end.

Definition class_lines (info : TypeInfo) (has_static : bool) : list string :=
  [ "struct " ++ struct_name info ++ "_c" ++ nl ++ "{" ++ nl;
    tab ++ "Il2CppClass_1 _1;" ++ nl;
    (if has_static
     then tab ++ struct_name info ++ "_StaticFields* static_fields;" ++ nl
     else tab ++ "void* static_fields;" ++ nl);
    tab ++ "Il2CppRGCTXData* rgctx_data;" ++ nl;
    tab ++ "Il2CppClass_2 _2;" ++ nl;
    tab ++ "VirtualInvokeData vtable[32];" ++ nl;
    "};" ++ nl ++ nl ].

Definition object_lines (info : TypeInfo) (fields_struct_name : string) : list string :=
  List.app [ "struct " ++ struct_name info ++ "_o" ++ nl ++ "{" ++ nl ]
  (List.app
     (if negb (is_value_type info)
      then [ tab ++ struct_name info ++ "_c *klass;" ++ nl; tab ++ "void *monitor;" ++ nl ]
      else [])
     [ tab ++ fields_struct_name ++ " fields;" ++ nl; "};" ++ nl ++ nl ]).

Definition static_lines (info : TypeInfo) (has_static : bool) : list string :=
  if has_static
  then List.app [ "struct " ++ struct_name info ++ "_StaticFields" ++ nl ++ "{" ++ nl ]
         (List.app (flat_map field_line (static_fields info)) [ "};" ++ nl ++ nl ])
  else [].

Definition render_type (info : TypeInfo) (alias_map : gmap string (option nat))
    (store : list TypeInfo) : result string :=
  match fields info, static_fields info with
  | [], [] => Ok ""
  | _, _ =>
      parent_id <- resolve_parent alias_map info ;;
      parent_decl <-
        match parent_id with
        | Some i =>
            parent_info <- deref store i ;;
            if negb (is_enum parent_info)
               && negb (String.eqb (struct_name parent_info) (struct_name info))
            then Ok (Some (struct_name parent_info))
            else Ok None
        | None => Ok None
        end ;;
      let fields_struct_name := struct_name info ++ "_Fields" in
      let has_static := match static_fields info with [] => false | _ => true end in
      let lines : list string :=
        List.app [ fields_head fields_struct_name parent_decl ]
        (List.app (flat_map field_line (fields info))
        (List.app [ "};" ++ nl ++ nl ]
        (List.app (class_lines info has_static)
        (List.app (object_lines info fields_struct_name)
                  (static_lines info has_static))))) in
      Ok (Py.concat lines)
  end.

(** The state that the closure [emit] of [generate_header] updates: the
    set [emitted], the list [chunks] and, for the statements below only,
    [order]: the store index of the type each chunk was rendered for. *)
Record EmitState : Type := mkEmitState {
  emitted : gset string;
  chunks : list string;
  order : list nat
}.

(** [emit(info)], for the type at index [i].  [fuel] bounds the depth of
    the recursion. *)
Fixpoint emit (fuel : nat) (alias_map : gmap string (option nat)) (store : list TypeInfo)
    (st : EmitState) (i : nat) : result EmitState :=
  match fuel with
  | O => Timeout
  | S n =>
      info <- deref store i ;;
      if is_enum info then Ok st
      else if bool_decide (struct_name info ∈ emitted st) then Ok st
      else
        parent_id <- resolve_parent alias_map info ;;
        st1 <- match parent_id with
               | Some p => emit n alias_map store st p
               | None => Ok st
               end ;;
        st2 <- foldM (fun s (field : Field) =>
                        match referenced field with
                        | Some r => emit n alias_map store s r
                        | None => Ok s
                        end)
                     st1 (fields info ++ static_fields info)%list ;;
        chunk <- render_type info alias_map store ;;
        Ok (mkEmitState ({[struct_name info]} ∪ emitted st2) (chunks st2 ++ [chunk])
              (order st2 ++ [i]))
  end.

Definition empty_emit : EmitState := mkEmitState ∅ [] [].

(** [for info in type_infos: emit(info)] *)
Definition emit_all (fuel : nat) (alias_map : gmap string (option nat))
    (store : list TypeInfo) : result EmitState :=
  foldM (emit fuel alias_map store) empty_emit (seq 0 (length store)).

Definition generate_header (fuel : nat) (type_infos : list TypeInfo)
    (alias_map : gmap string (option nat)) (header_version : string) : result string :=
  store <- resolve_field_types type_infos alias_map ;;
  st <- emit_all fuel alias_map store ;;
  match HEADER_VARIANTS !! header_version with
  | Some variant =>
      if Py.truthy variant
      then Ok (Py.concat (List.app [GENERIC_HEADER; variant] (chunks st)))
      else Raise (ValueError ("Unsupported header version: " ++ header_version))
  | None => Raise (ValueError ("Unsupported header version: " ++ header_version))
  end.

(** ** The command line

    The file system is a map from paths to the text of the files. *)

Record Args : Type := mkArgs {
  dump : string;
  output : string;
  header_version : string
}.

(** [sorted(HEADER_VARIANTS.keys())], the choices of [--header-version]. *)
Definition version_choices : list string := ["22"; "24"; "24.1"; "24.2"; "27"; "29"].

(** [parse_args], on the values of the three options where given. *)
Definition parse_args (dump_opt output_opt version_opt : option string) : result Args :=
  let version := default "29" version_opt in
  if mem version version_choices
  then Ok (mkArgs (default "dump.cs" dump_opt) (default "il2cpp.h" output_opt) version)
  else Raise (SystemExit ("argument --header-version: invalid choice: " ++ version)).

(** The part of [main] before the output is written. *)
Definition main_text (fuel : nat) (args : Args) (fs : gmap string string) : result string :=
  match fs !! dump args with
  | None => Raise (SystemExit ("dump.cs not found: " ++ dump args))
  | Some text =>
      parsed <- parse_dump text ;;
      match fst parsed with
      | [] => Raise (SystemExit "No types discovered in dump.cs; is the file valid?")
      | _ => generate_header fuel (fst parsed) (snd parsed) (header_version args)
      end
  end.

(** [main]: the file system after the run, and how the run ended. *)
Definition main (fuel : nat) (dump_opt output_opt version_opt : option string)
    (fs : gmap string string) : gmap string string * result unit :=
  match (args <- parse_args dump_opt output_opt version_opt ;;
         header_text <- main_text fuel args fs ;;
         Ok (args, header_text)) with
  | Ok (args, header_text) => (<[output args := header_text]> fs, Ok tt)
  | Raise e => (fs, Raise e)
  | Timeout => (fs, Timeout)
  end.

(** ** Predicates and functions used in the statements *)

(** Every character of [s] satisfies [p]. *)
Fixpoint all_chars (p : ascii -> bool) (s : string) : bool :=
  match s with
  | EmptyString => true
  | String c t => p c && all_chars p t
  end.

Definition is_not (c : ascii) (a : ascii) : bool := negb (Py.eqc c a).

(** [s] without its leading characters of class [p]. *)
Fixpoint drop_while (p : ascii -> bool) (s : string) : string :=
  match s with
  | String c t => if p c then drop_while p t else s
  | EmptyString => EmptyString
  end.

(** What [re.sub("__+", "_", s)] computes: of a run of underscores only
    the last one stays. *)
Fixpoint collapse (s : string) : string :=
  match s with
  | EmptyString => EmptyString
  | String c t =>
      if Py.eqc c "_" && Py.startswith "_" t then collapse t else String c (collapse t)
  end.

(** No two underscores in a row. *)
Fixpoint no_double (s : string) : bool :=
  match s with
  | EmptyString => true
  | String c t => negb (Py.eqc c "_" && Py.startswith "_" t) && no_double t
  end.

(** The character class of [IDENTIFIER_SANITIZE_RE], complemented. *)
Definition ident_char (c : ascii) : bool :=
  Py.ascii_digit c || Py.ascii_upper c || Py.ascii_lower c || Py.eqc c "_".

(** The characters that [sanitize_struct_name] replaces or removes. *)
Definition specials : list ascii :=
  [":"; "+"; "/"; "`"; "<"; ">"; ","; " "; "["; "]"; "-"; "."]%char.

Definition struct_special (c : ascii) : bool := existsb (Py.eqc c) specials.

(** What a sanitized structure name looks like. *)
Definition struct_clean (s : string) : bool :=
  all_chars (fun c => negb (struct_special c)) s && no_double s
  && negb (Py.startswith "_" s).

(** What a sanitized identifier looks like. *)
Definition ident_clean (s : string) : bool :=
  all_chars ident_char s && no_double s
  && match s with
     | String c _ => negb (Py.isdigit c)
     | EmptyString => false
     end.

(** The class of one underscore. *)
Definition us (c : ascii) : bool := Py.eqc "_" c.

(** The keys under which a type is registered in the alias map. *)
Definition keys_of (t : TypeInfo) (k : string) : Prop :=
  k = normalise_type_name (full_name t) \/ k = normalise_type_name (short_name t).

(** Every binding of the alias map points into the store. *)
Definition alias_bound (amap : gmap string (option nat)) (store : list TypeInfo) : Prop :=
  forall k i, amap !! k = Some (Some i) -> is_Some (store !! i).

(** The alias map of a store: a key bound to a type is a key of that type
    and of no other, and every key of every type is present. *)
Definition alias_ok (amap : gmap string (option nat)) (store : list TypeInfo) : Prop :=
  (forall k i, amap !! k = Some (Some i) ->
     exists t, store !! i = Some t /\ keys_of t k /\
       forall j t', store !! j = Some t' -> keys_of t' k -> j = i)
  /\ (forall j t k, store !! j = Some t -> keys_of t k -> is_Some (amap !! k)).

(** Every field of every type of the store has a name. *)
Definition fields_named (store : list TypeInfo) : Prop :=
  forall t f, t ∈ store -> f ∈ (fields t ++ static_fields t)%list -> name f <> "".

(** How one line changes the store and the alias map: not at all, by a
    new type, or by a new field of a type. *)
Inductive line_effect (st st' : ParseState) : Prop :=
| effect_none :
    type_infos st' = type_infos st -> alias_map st' = alias_map st -> line_effect st st'
| effect_type (info : TypeInfo) :
    fields info = [] -> static_fields info = [] ->
    type_infos st' = (type_infos st ++ [info])%list ->
    alias_map st' =
      AliasMap.add (short_name info) (length (type_infos st))
        (AliasMap.add (full_name info) (length (type_infos st)) (alias_map st)) ->
    line_effect st st'
| effect_field (cur : nat) (t : TypeInfo) (field : Field) (name_part : string) :
    type_infos st !! cur = Some t ->
    name field = sanitize_identifier name_part ->
    type_infos st' = <[cur := append_field field t]> (type_infos st) ->
    alias_map st' = alias_map st ->
    line_effect st st'.

(** The base name and the number of array markers that [convert_type]
    takes from a declared type. *)
Definition base_name (original_type : string) : string := fst (fst (split_markers original_type)).
Definition array_count (original_type : string) : nat := snd (split_markers original_type).


(** The store and the alias map that [parse_dump] returns for a text. *)
Definition parsed_store (text : string) : list TypeInfo :=
  match parse_dump text with
  | Ok (store, _) => store
  | _ => []
  end.

Definition parsed_amap (text : string) : gmap string (option nat) :=
  match parse_dump text with
  | Ok (_, amap) => amap
  | _ => ∅
  end.

(** Type [a] is the resolvable parent of type [b], or the dependency
    that the resolver recorded for one of the fields of [b]. *)
Definition depends_on (amap : gmap string (option nat)) (store : list TypeInfo)
    (b a : nat) : Prop :=
  exists tb, store !! b = Some tb
    /\ (resolve_parent amap tb = Ok (Some a)
        \/ exists f, f ∈ (fields tb ++ static_fields tb)%list /\ referenced f = Some a).

(** Two indices of the store whose types have the same structure name. *)
Definition same_struct_name (store : list TypeInfo) (j a : nat) : Prop :=
  exists t ta, store !! j = Some t /\ store !! a = Some ta
               /\ struct_name t = struct_name ta.

(** An emission order in which every type comes after a type with the
    structure name of each of its dependencies that is not an enum. *)
Inductive ordered (amap : gmap string (option nat)) (store : list TypeInfo)
  : list nat -> Prop :=
| ordered_nil : ordered amap store []
| ordered_snoc (l : list nat) (b : nat) :
    ordered amap store l ->
    (forall a ta, depends_on amap store b a -> store !! a = Some ta -> is_enum ta = false ->
       exists j, j ∈ l /\ same_struct_name store j a) ->
    ordered amap store (l ++ [b]).

(** Chunk [c] is the rendering of the type at index [i]. *)
Definition rendered (amap : gmap string (option nat)) (store : list TypeInfo)
    (i : nat) (c : string) : Prop :=
  exists t, store !! i = Some t /\ render_type t amap store = Ok c.

(** What holds of the state of [emit] between calls. *)
Record emit_inv (amap : gmap string (option nat)) (store : list TypeInfo)
    (st : EmitState) : Prop := mkEmitInv {
  inv_emitted : forall n, n ∈ emitted st ->
    exists j t, j ∈ order st /\ store !! j = Some t /\ struct_name t = n;
  inv_ordered : ordered amap store (order st);
  inv_rendered : Forall2 (rendered amap store) (order st) (chunks st);
  inv_no_enum : forall j, j ∈ order st ->
    exists t, store !! j = Some t /\ is_enum t = false
}.

(** The body of the loop of [emit] over the fields of a type. *)
Definition emit_field (fuel : nat) (alias_map : gmap string (option nat))
    (store : list TypeInfo) (s : EmitState) (field : Field) : result EmitState :=
  match referenced field with
  | Some r => emit fuel alias_map store s r
  | None => Ok s
  end.

(** The store after [resolve_field_types], and the state after the loop
    over [emit], for the text of a dump. *)
Definition resolved_store (text : string) : list TypeInfo :=
  match resolve_field_types (parsed_store text) (parsed_amap text) with
  | Ok store => store
  | _ => []
  end.

Definition emitted_state (fuel : nat) (text : string) : EmitState :=
  match emit_all fuel (parsed_amap text) (resolved_store text) with
  | Ok st => st
  | _ => empty_emit
  end.

(** What a call of [emit] does to the state. *)
Record emit_post (amap : gmap string (option nat)) (store : list TypeInfo)
    (st st' : EmitState) : Prop := mkEmitPost {
  post_inv : emit_inv amap store st';
  post_emitted : emitted st ⊆ emitted st';
  post_order : exists l, order st' = (order st ++ l)%list
}.

(** The statement about [emit] with fuel [n]. *)
Definition emit_ok (amap : gmap string (option nat)) (store : list TypeInfo)
    (n : nat) : Prop :=
  forall st i st', emit n amap store st i = Ok st' -> emit_inv amap store st ->
    emit_post amap store st st'
    /\ forall t, store !! i = Some t -> is_enum t = false -> struct_name t ∈ emitted st'.


(** The number of places of [s] at which [needle] starts. *)
Fixpoint occurrences (needle s : string) : nat :=
  (if Py.startswith needle s then 1 else 0) +
  match s with
  | String _ t => occurrences needle t
  | EmptyString => 0
  end.

(** The text that [generate_header] returns for the text of a dump. *)
Definition generated_header (fuel : nat) (text header_version : string) : string :=
  match generate_header fuel (parsed_store text) (parsed_amap text) header_version with
  | Ok out => out
  | _ => ""
  end.

(** A key marked ambiguous is a key of two distinct types. *)
Definition ambiguous_ok (amap : gmap string (option nat)) (store : list TypeInfo) : Prop :=
  forall k, amap !! k = Some None ->
    exists i j ti tj, i <> j /\ store !! i = Some ti /\ store !! j = Some tj
                      /\ keys_of ti k /\ keys_of tj k.

(** [a] stands before [b] in the list [l]. *)
Definition before (l : list nat) (a b : nat) : Prop :=
  exists p q, l !! p = Some a /\ l !! q = Some b /\ p < q.

(** A type of the store that is not an enum. *)
Definition renderable (store : list TypeInfo) (i : nat) : Prop :=
  exists t, store !! i = Some t /\ is_enum t = false.

(** A chain of dependencies from [x] to [z], through types that are not
    enums. *)
Inductive dep_path (amap : gmap string (option nat)) (store : list TypeInfo)
  : nat -> nat -> Prop :=
| dep_path_refl (x : nat) : dep_path amap store x x
| dep_path_step (x y z : nat) :
    depends_on amap store x y -> renderable store y ->
    dep_path amap store y z -> dep_path amap store x z.

(** What holds of the state of [emit] between calls when no two types of
    the store share a structure name. *)
Record once_inv (store : list TypeInfo) (st : EmitState) : Prop := mkOnceInv {
  once_nodup : NoDup (order st);
  once_emitted : forall j t, j ∈ order st -> store !! j = Some t ->
    struct_name t ∈ emitted st
}.

(** The types that a call of [emit] on [r] adds are reached from [r]. *)
Definition reached (amap : gmap string (option nat)) (store : list TypeInfo)
    (r : nat) (st st' : EmitState) : Prop :=
  forall l j, order st' = (order st ++ l)%list -> j ∈ l ->
    renderable store r /\ dep_path amap store r j.

(** A context of a type refers to a type of the store. *)
Definition ctx_ok (store : list TypeInfo) (ctx : Context) : Prop :=
  ctx_kind ctx = "type" -> exists i, type_info ctx = Some i /\ i < length store.

(** The references of the scanner state point into the store. *)
Definition state_ok (st : ParseState) : Prop :=
  Forall (ctx_ok (type_infos st)) (contexts st)
  /\ forall c, current_type st = Some c -> c < length (type_infos st).

(** The line is a type opener: the namespace pattern does not match it
    and the type pattern does. *)
Definition is_type_line (raw_line : string) : bool :=
  let stripped := Py.strip (Py.rstrip raw_line) in
  match Re.rmatch NAMESPACE_RE stripped, Re.rmatch TYPE_RE stripped with
  | None, Some _ => true
  | _, _ => false
  end.

(** The line opens an enum whose base list names nothing. *)
Definition bad_enum_line (raw_line : string) : bool :=
  let stripped := Py.strip (Py.rstrip raw_line) in
  match Re.rmatch NAMESPACE_RE stripped, Re.rmatch TYPE_RE stripped with
  | None, Some m =>
      match Re.group "bases" (snd m) with
      | Some bases =>
          Py.truthy bases && String.eqb (default "" (Re.group "kind" (snd m))) "enum"
          && match base_candidates bases with [] => true | _ => false end
      | None => false
      end
  | _, _ => false
  end.

(** Field [f'] is field [f] after [resolve_field_types]. *)
Definition field_resolved (amap : gmap string (option nat)) (store : list TypeInfo)
    (f f' : Field) : Prop :=
  name f' = name f /\ original_type f' = original_type f /\ is_static f' = is_static f
  /\ exists c, c_type f' = Some c /\ c <> ""
               /\ convert_type (original_type f) amap store = Ok (c, referenced f').

(** Type [t'] is type [t] after [resolve_field_types]. *)
Definition type_resolved (amap : gmap string (option nat)) (store : list TypeInfo)
    (t t' : TypeInfo) : Prop :=
  full_name t' = full_name t /\ short_name t' = short_name t
  /\ struct_name t' = struct_name t /\ kind t' = kind t
  /\ parent t' = parent t /\ enum_base t' = enum_base t
  /\ Forall2 (field_resolved amap store) (fields t) (fields t')
  /\ Forall2 (field_resolved amap store) (static_fields t) (static_fields t').

(** The dependency recorded for a field points into the store. *)
Definition refs_ok (store : list TypeInfo) : Prop :=
  forall t f r, t ∈ store -> f ∈ (fields t ++ static_fields t)%list ->
    referenced f = Some r -> r < length store.

(** The field that the scanner makes of a declaration line. *)
Definition scanned_field (stripped type_part name_part : string) : Field :=
  mkField (sanitize_identifier name_part) type_part
    (Py.contains " static " (" " ++ stripped ++ " ")) None None.

(** What a field looks like when the scanner is through. *)
Definition field_shape (f : Field) : Prop :=
  ident_clean (name f) = true
  /\ (exists c t, original_type f = String c t /\ Py.isspace c = false)
  /\ c_type f = None /\ referenced f = None.

(** The fields of a type are in the list that their flag says. *)
Definition fields_shape (t : TypeInfo) : Prop :=
  Forall (fun f => field_shape f /\ is_static f = false) (fields t)
  /\ Forall (fun f => field_shape f /\ is_static f = true) (static_fields t).

(** What the names and the bases of a type look like. *)
Definition type_shape (t : TypeInfo) : Prop :=
  struct_name t = sanitize_struct_name (full_name t)
  /\ (full_name t = short_name t
      \/ exists outer, full_name t = outer ++ "." ++ short_name t)
  /\ (forall p, parent t = Some p ->
        mem p IGNORED_BASES = false /\ p <> "" /\ Py.strip p = p
        /\ enum_base t = None /\ kind t <> "enum")
  /\ (forall b, enum_base t = Some b ->
        kind t = "enum" /\ b <> "" /\ Py.strip b = b /\ parent t = None).

(** The string does not start with white space. *)
Definition no_lead (s : string) : Prop :=
  match s with
  | String c _ => Py.isspace c = false
  | EmptyString => True
  end.

(** The sum over the lines of the opening minus the closing braces. *)
Fixpoint brace_balance (lines : list string) : Z :=
  match lines with
  | [] => 0%Z
  | l :: rest =>
      (Z.of_nat (Py.count "{" l) - Z.of_nat (Py.count "}" l) + brace_balance rest)%Z
  end.


(** ** Sample dumps *)

(** A class with a parent and two fields, one of them static. *)
Definition sample_dump : string :=
"namespace A
{
	class Foo : Bar
	{
		[FieldOffset(0x10)]
		public int x;
		[FieldOffset(0x18)]
		public static bool @ready;
	}
}
class Bar
{
	[FieldOffset(0x8)]
	public bool y;
}
".

(** A class with a field that is an array of a value type. *)
Definition array_dump : string :=
"struct Vec
{
	[FieldOffset(0x0)]
	public float x;
}
class Path
{
	[FieldOffset(0x10)]
	public Vec[] points;
}
".


(** Two structs with one structure name, one of them in a cycle with a
    third struct. *)
Definition order_dump : string :=
"namespace N
{
	struct S
	{
		[FieldOffset(0x0)]
		public N_S a;
		[FieldOffset(0x8)]
		public B b;
	}
}
struct N_S
{
	[FieldOffset(0x0)]
	public int x;
}
struct B
{
	[FieldOffset(0x0)]
	public N.S s;
}
".

(** Two structs, each with a field of the other. *)
Definition cycle_dump : string :=
"struct A
{
	[FieldOffset(0x0)]
	public B b;
}
struct B
{
	[FieldOffset(0x0)]
	public A a;
}
".

(** A class whose parent has the same structure name. *)
Definition duplicate_dump : string :=
"namespace A
{
	class B : A_B
	{
		[FieldOffset(0x10)]
		public int x;
	}
}
class A_B
{
	[FieldOffset(0x10)]
	public int y;
}
".

(** A dump without a type. *)
Definition empty_dump : string :=
"// Image 0: mscorlib.dll - 0
namespace A
{
}
".

(** * Properties *)

(** ** Characters and strings *)
Lemma eqc_eq a b : Py.eqc a b = true <-> a = b.
Proof. unfold Py.eqc. apply Ascii.eqb_eq. Qed.

Lemma eqc_refl a : Py.eqc a a = true.
Proof. by apply eqc_eq. Qed.

Lemma eqc_sym a b : Py.eqc a b = Py.eqc b a.
Proof. unfold Py.eqc. apply Ascii.eqb_sym. Qed.

Lemma all_chars_app p s t : all_chars p (s ++ t) = all_chars p s && all_chars p t.
Proof. induction s as [|c s IH]; simpl; [done|]. by rewrite IH, andb_assoc. Qed.

Lemma all_chars_impl (p q : ascii -> bool) s :
  (forall c, p c = true -> q c = true) -> all_chars p s = true -> all_chars q s = true.
Proof.
  intros Hpq. induction s as [|c s IH]; simpl; [done|].
  intros [Hc Hs]%andb_true_iff. rewrite (Hpq _ Hc). simpl. auto.
Qed.

(** *** [str.replace] *)

Lemma replace_from_all p k old new s :
  all_chars p new = true -> all_chars p s = true ->
  all_chars p (Py.replace_from k old new s) = true.
Proof.
  intros Hnew. revert k. induction s as [|c s IH]; intros k; simpl; [done|].
  intros [Hc Hs]%andb_true_iff. destruct k as [|k]; [|by apply IH].
  destruct (Py.startswith old (String c s)).
  - rewrite all_chars_app, Hnew. simpl. by apply IH.
  - simpl. rewrite Hc. simpl. by apply IH.
Qed.

Lemma replace_all p old new s :
  all_chars p new = true -> all_chars p s = true -> all_chars p (Py.replace old new s) = true.
Proof. apply replace_from_all. Qed.

Lemma replace_absent c old new s :
  all_chars (is_not c) s = true -> Py.replace (String c old) new s = s.
Proof.
  unfold Py.replace. induction s as [|a s IH]; simpl; [done|].
  intros [Ha Hs]%andb_true_iff. unfold is_not in Ha. rewrite (negb_true_iff _) in Ha.
  rewrite Ha. simpl. by rewrite IH.
Qed.

Lemma replace_char_removes c new s :
  all_chars (is_not c) new = true ->
  all_chars (is_not c) (Py.replace (String c "") new s) = true.
Proof.
  intros Hnew. unfold Py.replace. induction s as [|a s IH]; simpl; [done|].
  destruct (Py.eqc c a) eqn:E; simpl.
  - by rewrite all_chars_app, Hnew, IH.
  - unfold is_not at 1. by rewrite E, IH.
Qed.

(** *** [re.sub] with the two patterns of the sanitizers *)

Lemma sub_class_cons p repl a t :
  Re.sub (Re.Chr p) repl (String a t) =
  if p a then repl ++ Re.sub (Re.Chr p) repl t else String a (Re.sub (Re.Chr p) repl t).
Proof.
  unfold Re.sub. simpl. destruct (p a); simpl; [|done].
  by replace (S (String.length t) - String.length t) with 1 by lia.
Qed.

Lemma sub_class_all (p q : ascii -> bool) repl s :
  (forall c, p c = false -> q c = true) -> all_chars q repl = true ->
  all_chars q (Re.sub (Re.Chr p) repl s) = true.
Proof.
  intros Hpq Hrepl. induction s as [|a t IH]; [done|].
  rewrite sub_class_cons. destruct (p a) eqn:E.
  - by rewrite all_chars_app, Hrepl, IH.
  - simpl. by rewrite (Hpq _ E), IH.
Qed.

Lemma sub_class_id p repl s :
  all_chars (fun c => negb (p c)) s = true -> Re.sub (Re.Chr p) repl s = s.
Proof.
  induction s as [|a t IH]; [done|]. simpl. intros [Ha Ht]%andb_true_iff.
  rewrite sub_class_cons. apply negb_true_iff in Ha. rewrite Ha. by rewrite IH.
Qed.

Lemma drop_while_length p s : String.length (drop_while p s) <= String.length s.
Proof. induction s as [|a t IH]; simpl; [lia|]. destruct (p a); simpl; lia. Qed.

(** Greedy repetition of a character class takes the whole run first. *)
Lemma star_class_head whole p n s c :
  String.length s <= n ->
  exists rest, Re.star_from (Re.run whole (Re.Chr p)) n s c = (drop_while p s, c) :: rest.
Proof.
  revert s. induction n as [|n IH]; intros s Hn.
  - destruct s; simpl in Hn; [|lia]. by eexists.
  - destruct s as [|a t]; cbn [Re.star_from drop_while].
    + by eexists.
    + change (Re.run whole (Re.Chr p) (String a t) c)
        with (if p a then [(t, c)] else []).
      destruct (p a) eqn:E; cbn [flat_map fst snd]; [|by eexists].
      assert (Hlt : Nat.ltb (String.length t) (String.length (String a t)) = true)
        by (apply Nat.ltb_lt; simpl; lia).
      rewrite Hlt. destruct (IH t) as [rest Hrest]; [simpl in Hn; lia|].
      rewrite Hrest. simpl. by eexists.
Qed.

Lemma run_seq whole r1 r2 s c :
  Re.run whole (Re.Seq r1 r2) s c =
  flat_map (fun o : Re.outcome => Re.run whole r2 (fst o) (snd o)) (Re.run whole r1 s c).
Proof. done. Qed.

Lemma run_one_cons whole x a t c :
  Re.run whole (Re.One x) (String a t) c = if Py.eqc x a then [(t, c)] else [].
Proof. done. Qed.

Lemma run_one_nil whole x c : Re.run whole (Re.One x) "" c = [].
Proof. done. Qed.

Lemma run_star whole r s c :
  Re.run whole (Re.Star r) s c = Re.star_from (Re.run whole r) (String.length s) s c.
Proof. done. Qed.

Lemma startswith_us t : Py.startswith "_" t = match t with String b _ => Py.eqc "_" b | _ => false end.
Proof. destruct t; simpl; [done|]. by rewrite andb_true_r. Qed.

Lemma run_underscores_none whole a t :
  (Py.eqc a "_" && Py.startswith "_" t) = false ->
  Re.run whole UNDERSCORES_RE (String a t) [] = [].
Proof.
  intros H. unfold UNDERSCORES_RE, Re.Plus. rewrite run_seq, run_one_cons.
  rewrite (eqc_sym "_" a). destruct (Py.eqc a "_") eqn:Ea; [|done].
  rewrite startswith_us in H. cbn [flat_map fst snd andb] in *. rewrite app_nil_r.
  rewrite run_seq. destruct t as [|b u]; [by rewrite run_one_nil|].
  rewrite run_one_cons. by rewrite H.
Qed.

Lemma run_underscores_some whole u :
  exists rest, Re.run whole UNDERSCORES_RE (String "_" (String "_" u)) [] =
               (drop_while us u, []) :: rest.
Proof.
  unfold UNDERSCORES_RE, Re.Plus. rewrite run_seq, run_one_cons.
  cbn [Py.eqc Ascii.eqb Bool.eqb flat_map fst snd]. rewrite app_nil_r.
  rewrite run_seq, run_one_cons. cbn [Py.eqc Ascii.eqb Bool.eqb flat_map fst snd].
  rewrite app_nil_r. rewrite run_star.
  destruct (star_class_head whole (Py.eqc "_") (String.length u) u []) as [rest H]; [lia|].
  unfold Re.One. rewrite H. by eexists.
Qed.

Lemma sub_from_drop_while p r repl u :
  Re.sub_from (String.length u - String.length (drop_while p u)) r repl u =
  Re.sub_from 0 r repl (drop_while p u).
Proof.
  induction u as [|a v IH]; [done|]. cbn [drop_while]. destruct (p a).
  - pose proof (drop_while_length p v).
    replace (String.length (String a v) - String.length (drop_while p v))
      with (S (String.length v - String.length (drop_while p v))) by (simpl; lia).
    exact IH.
  - by rewrite Nat.sub_diag.
Qed.

Lemma collapse_run u : collapse (String "_" u) = String "_" (collapse (drop_while us u)).
Proof.
  induction u as [|b v IH]; [done|].
  cbn [drop_while]. unfold us at 1. destruct (Py.eqc "_" b) eqn:E.
  - apply eqc_eq in E. subst b. rewrite <- IH. done.
  - cbn [collapse]. rewrite startswith_us, E. done.
Qed.

Lemma sub_underscores_collapse_le n s :
  String.length s <= n -> Re.sub UNDERSCORES_RE "_" s = collapse s.
Proof.
  revert s. induction n as [|n IH]; intros s Hn.
  - destruct s; [done|simpl in Hn; lia].
  - destruct s as [|a t]; [done|]. simpl in Hn.
    destruct (Py.eqc a "_" && Py.startswith "_" t) eqn:E.
    + apply andb_true_iff in E as [Ea Et]. apply eqc_eq in Ea. subst a.
      destruct t as [|b u]; [done|]. rewrite startswith_us in Et. apply eqc_eq in Et. subst b.
      unfold Re.sub. cbn [Re.sub_from].
      destruct (run_underscores_some (String "_" (String "_" u)) u) as [rest ->].
      cbn [fst]. pose proof (drop_while_length us u) as Hle.
      replace (String.length (String "_" (String "_" u)) - String.length (drop_while us u))
        with (S (S (String.length u - String.length (drop_while us u))))
        by (simpl; lia).
      cbn [Re.sub_from]. rewrite sub_from_drop_while.
      change (collapse (String "_" (String "_" u))) with (collapse (String "_" u)).
      rewrite collapse_run. fold (Re.sub UNDERSCORES_RE "_" (drop_while us u)).
      rewrite IH; [done|]. simpl in Hn. lia.
    + unfold Re.sub. cbn [Re.sub_from collapse]. rewrite run_underscores_none by done.
      rewrite E. fold (Re.sub UNDERSCORES_RE "_" t). rewrite IH by lia. done.
Qed.

Lemma sub_underscores_collapse s : Re.sub UNDERSCORES_RE "_" s = collapse s.
Proof. by apply (sub_underscores_collapse_le (String.length s)). Qed.

Lemma collapse_startswith t : Py.startswith "_" (collapse t) = Py.startswith "_" t.
Proof.
  induction t as [|b v IH]; [done|]. cbn [collapse].
  destruct (Py.eqc b "_" && Py.startswith "_" v) eqn:E.
  - rewrite IH. apply andb_true_iff in E as [Eb Ev]. rewrite Ev.
    rewrite startswith_us. by rewrite eqc_sym.
  - by rewrite !startswith_us.
Qed.

Lemma collapse_no_double s : no_double (collapse s) = true.
Proof.
  induction s as [|c t IH]; [done|]. cbn [collapse].
  destruct (Py.eqc c "_" && Py.startswith "_" t) eqn:E; [done|].
  cbn [no_double]. by rewrite collapse_startswith, E, IH.
Qed.

Lemma collapse_id s : no_double s = true -> collapse s = s.
Proof.
  induction s as [|c t IH]; [done|]. cbn [no_double collapse].
  intros [H1 H2]%andb_true_iff. apply negb_true_iff in H1. rewrite H1. by rewrite IH.
Qed.

Lemma collapse_all p s : all_chars p s = true -> all_chars p (collapse s) = true.
Proof.
  induction s as [|c t IH]; [done|]. cbn [collapse all_chars].
  intros [H1 H2]%andb_true_iff. destruct (_ && _); [by apply IH|].
  cbn [all_chars]. by rewrite H1, IH.
Qed.

(** *** Sanitized structure names *)

Lemma not_special_all s :
  Forall (fun c => all_chars (is_not c) s = true) specials ->
  all_chars (fun a => negb (struct_special a)) s = true.
Proof.
  intros H. induction s as [|a t IH]; [done|]. cbn [all_chars].
  rewrite IH.
  - rewrite andb_true_r. unfold struct_special. apply negb_true_iff.
    apply not_true_is_false. intros [c [Hin Hc]]%existsb_exists.
    apply eqc_eq in Hc. subst c.
    rewrite Forall_forall in H. specialize (H a). 
    assert (Ha : a ∈ specials) by (by apply list_elem_of_In).
    apply H in Ha. cbn [all_chars] in Ha. apply andb_true_iff in Ha as [Ha _].
    unfold is_not in Ha. by rewrite eqc_refl in Ha.
  - eapply Forall_impl; [exact H|]. cbn [all_chars]. intros c Hc.
    by apply andb_true_iff in Hc as [_ ?].
Qed.

Lemma special_not_all c s :
  In c specials -> all_chars (fun a => negb (struct_special a)) s = true ->
  all_chars (is_not c) s = true.
Proof.
  intros Hin. apply all_chars_impl. intros a Ha. unfold is_not.
  apply negb_true_iff. apply not_true_is_false. intros E%eqc_eq. subst a.
  apply negb_true_iff in Ha. unfold struct_special in Ha.
  assert (existsb (Py.eqc c) specials = true); [|congruence].
  apply existsb_exists. exists c. split; [done|apply eqc_refl].
Qed.

Ltac free_of :=
  repeat first
    [ apply replace_char_removes; reflexivity
    | apply replace_all; [reflexivity|] ].

Lemma sanitize_struct_name_clean s : struct_clean (sanitize_struct_name s) = true.
Proof.
  unfold sanitize_struct_name. rewrite sub_underscores_collapse.
  set (r := Py.replace "." "_" _).
  assert (Hr : all_chars (fun a => negb (struct_special a)) r = true).
  { apply not_special_all. unfold specials, r.
    repeat (apply Forall_cons; split; [free_of|]). done. }
  assert (Hc : all_chars (fun a => negb (struct_special a)) (collapse r) = true)
    by (by apply collapse_all).
  pose proof (collapse_no_double r) as Hn.
  unfold struct_clean. destruct (collapse r) as [|a t] eqn:E; [done|].
  rewrite startswith_us. destruct (Py.eqc "_" a) eqn:Ea.
  - cbn [Py.drop]. cbn [all_chars no_double] in Hc, Hn.
    apply andb_true_iff in Hc as [_ Hc]. apply andb_true_iff in Hn as [Hn1 Hn2].
    rewrite Hc, Hn2. rewrite eqc_sym, Ea in Hn1. cbn [andb] in Hn1.
    by rewrite Hn1.
  - rewrite Hc, Hn. cbn [Py.startswith]. by rewrite Ea.
Qed.

Lemma sanitize_struct_name_fixed s : struct_clean s = true -> sanitize_struct_name s = s.
Proof.
  unfold struct_clean. intros [[Ha Hn]%andb_true_iff Hs]%andb_true_iff.
  apply negb_true_iff in Hs.
  assert (Hfree : forall c, In c specials -> all_chars (is_not c) s = true)
    by (intros c Hc; by apply special_not_all).
  unfold sanitize_struct_name.
  do 14 (match goal with
         | |- context [Py.replace (String ?c ?o) ?n s] =>
             rewrite (replace_absent c o n s)
               by (apply Hfree; unfold specials; simpl; tauto)
         end).
  rewrite sub_underscores_collapse, collapse_id by done. by rewrite Hs.
Qed.

(** *** Sanitized identifiers *)

Ltac by_cases_on_char c :=
  destruct c as [[] [] [] [] [] [] [] []]; vm_compute; try reflexivity; try discriminate; auto.

Lemma ident_char_not_space (c : ascii) : ident_char c = true -> Py.isspace c = false.
Proof. by_cases_on_char c. Qed.

Lemma ident_char_is_not (a : ascii) :
  ident_char a = false -> forall x, ident_char x = true -> is_not a x = true.
Proof.
  intros Ha x Hx. unfold is_not. apply negb_true_iff. apply not_true_is_false.
  intros E%eqc_eq. congruence.
Qed.

Lemma digit_not_underscore (c : ascii) : Py.isdigit c = true -> Py.eqc "_" c = false.
Proof. by_cases_on_char c. Qed.

Lemma rstrip_by_id p s : all_chars (fun c => negb (p c)) s = true -> Py.rstrip_by p s = s.
Proof.
  induction s as [|c t IH]; [done|]. cbn [all_chars Py.rstrip_by].
  intros [Hc Ht]%andb_true_iff. rewrite IH by done. apply negb_true_iff in Hc.
  rewrite Hc. by destruct t.
Qed.

Lemma strip_id s : all_chars (fun c => negb (Py.isspace c)) s = true -> Py.strip s = s.
Proof.
  intros H. unfold Py.strip, Py.rstrip. rewrite rstrip_by_id by done.
  destruct s as [|c t]; [done|]. cbn [all_chars] in H. apply andb_true_iff in H as [Hc _].
  apply negb_true_iff in Hc. cbn [Py.lstrip]. by rewrite Hc.
Qed.

Lemma ident_no_space s :
  all_chars ident_char s = true -> all_chars (fun c => negb (Py.isspace c)) s = true.
Proof.
  apply all_chars_impl. intros c Hc. by rewrite ident_char_not_space.
Qed.

Lemma sanitize_identifier_clean s : ident_clean (sanitize_identifier s) = true.
Proof.
  unfold sanitize_identifier. rewrite sub_underscores_collapse.
  set (cand := Py.replace ">" "_" _).
  assert (H1 : all_chars ident_char (Re.sub IDENTIFIER_SANITIZE_RE "_" cand) = true).
  { apply sub_class_all; [|done]. intros c Hc. by apply negb_false_iff in Hc. }
  apply collapse_all in H1.
  pose proof (collapse_no_double (Re.sub IDENTIFIER_SANITIZE_RE "_" cand)) as H2.
  destruct (collapse _) as [|c t]; [done|].
  destruct (Py.isdigit c) eqn:Ed.
  - change ("_" ++ String c t) with (String "_" (String c t)).
    cbn [Py.truthy]. unfold ident_clean. cbn [all_chars no_double].
    rewrite startswith_us, (digit_not_underscore c Ed).
    cbn [all_chars no_double] in H1, H2. rewrite H1, H2. done.
  - cbn [Py.truthy]. unfold ident_clean. by rewrite H1, H2, Ed.
Qed.

Lemma sanitize_identifier_fixed s : ident_clean s = true -> sanitize_identifier s = s.
Proof.
  unfold ident_clean. intros [[Ha Hn]%andb_true_iff Hd]%andb_true_iff.
  destruct s as [|c t]; [done|]. apply negb_true_iff in Hd.
  unfold sanitize_identifier. rewrite strip_id by (by apply ident_no_space).
  assert (Hat : Py.startswith "@" (String c t) = false).
  { cbn [Py.startswith]. rewrite andb_true_r. cbn [all_chars] in Ha.
    apply andb_true_iff in Ha as [Hc _]. revert Hc. clear. by_cases_on_char c. }
  rewrite Hat.
  rewrite (replace_absent "<" "" "_" (String c t))
    by (revert Ha; apply all_chars_impl; by apply ident_char_is_not).
  rewrite (replace_absent ">" "" "_" (String c t))
    by (revert Ha; apply all_chars_impl; by apply ident_char_is_not).
  unfold IDENTIFIER_SANITIZE_RE. rewrite sub_class_id.
  - rewrite sub_underscores_collapse, collapse_id by done. by rewrite Hd.
  - revert Ha. apply all_chars_impl. intros x Hx. fold (ident_char x).
    by rewrite Hx.
Qed.

(** C8: sanitization is idempotent.  Applying [sanitize_struct_name] or
    [sanitize_identifier] to its own result changes nothing, for every
    input string. *)
Theorem sanitization_idempotent (s : string) :
  sanitize_struct_name (sanitize_struct_name s) = sanitize_struct_name s
  /\ sanitize_identifier (sanitize_identifier s) = sanitize_identifier s.
Proof.
  split.
  - apply sanitize_struct_name_fixed, sanitize_struct_name_clean.
  - apply sanitize_identifier_fixed, sanitize_identifier_clean.
Qed.

(** ** The scanner *)

Lemma bind_ok {A B : Type} (m : result A) (k : A -> result B) (b : B) :
  bind m k = Ok b -> exists a, m = Ok a /\ k a = Ok b.
Proof. destruct m; simpl; [eauto|done|done]. Qed.

Lemma close_line_store st d :
  type_infos (close_line st d) = type_infos st /\ alias_map (close_line st d) = alias_map st.
Proof. unfold close_line. by destruct (pop_contexts _ _ _). Qed.

Lemma open_type_effect st m d o st' : open_type st m d o = Ok st' -> line_effect st st'.
Proof.
  unfold open_type. cbv zeta. intros (br & _ & H)%bind_ok. apply bind_ok in H as (tp & _ & H).
  injection H as <-.
  eapply effect_type; cycle 2; [simpl; reflexivity | simpl; reflexivity | done | done].
Qed.

Lemma read_field_effect st cur stripped st' :
  read_field st cur stripped = Ok st' -> line_effect st st'.
Proof.
  unfold read_field. destruct (split_type_and_name stripped) as [[tp np]|e|]; [| |done].
  - intros (t & Ht & H)%bind_ok. injection H as <-.
    unfold deref in Ht. destruct (type_infos st !! cur) as [t'|] eqn:E; [|done].
    injection Ht as ->.
    eapply (effect_field _ _ cur t _ np); [done | | simpl; reflexivity | done]. done.
  - destruct e; try done. intros H. injection H as <-. by apply effect_none.
Qed.

Lemma parse_line_effect st line st' : parse_line st line = Ok st' -> line_effect st st'.
Proof.
  unfold parse_line. cbv zeta. intros (st1 & H1 & H)%bind_ok. injection H as <-.
  destruct (close_line_store st1
    (brace_depth st + Z.of_nat (Py.count "{" (Py.rstrip line))
     - Z.of_nat (Py.count "}" (Py.rstrip line)))%Z) as [Ht Ha].
  assert (Hst1 : line_effect st st1).
  { destruct (Re.rmatch NAMESPACE_RE _).
    { injection H1 as <-. by apply effect_none. }
    destruct (Re.rmatch TYPE_RE _); [by eapply open_type_effect|].
    destruct (Re.search _ _). { injection H1 as <-. by apply effect_none. }
    destruct (current_type st); [|injection H1 as <-; by apply effect_none].
    destruct (_ && _); [by eapply read_field_effect|].
    injection H1 as <-. by apply effect_none. }
  destruct Hst1 as [E1 E2|info E1 E2 E3 E4|cur t f np E1 E2 E3 E4].
  - apply effect_none; congruence.
  - eapply effect_type; eauto; congruence.
  - eapply effect_field; eauto; congruence.
Qed.

(** An invariant of the store and the alias map holds for every state
    the scanner reaches. *)
Lemma parse_lines_invariant (P : list TypeInfo -> gmap string (option nat) -> Prop) :
  (forall st st', line_effect st st' ->
     P (type_infos st) (alias_map st) -> P (type_infos st') (alias_map st')) ->
  forall lines st st', parse_lines st lines = Ok st' ->
    P (type_infos st) (alias_map st) -> P (type_infos st') (alias_map st').
Proof.
  intros Hstep. induction lines as [|l lines IH]; intros st st' H HP; simpl in H.
  - by injection H as <-.
  - apply bind_ok in H as (st1 & H1 & H). apply (IH st1 st' H).
    apply (Hstep st st1); [by eapply parse_line_effect|done].
Qed.

Lemma parse_dump_invariant (P : list TypeInfo -> gmap string (option nat) -> Prop) :
  (forall st st', line_effect st st' ->
     P (type_infos st) (alias_map st) -> P (type_infos st') (alias_map st')) ->
  P [] ∅ ->
  forall text store amap, parse_dump text = Ok (store, amap) -> P store amap.
Proof.
  intros Hstep H0 text store amap H. unfold parse_dump in H.
  apply bind_ok in H as (st & Hst & H). injection H as <- <-.
  by apply (parse_lines_invariant P Hstep _ _ _ Hst).
Qed.

(** ** The alias map *)

Lemma add_lookup_ne k i (m : gmap string (option nat)) k' :
  k' <> normalise_type_name k -> AliasMap.add k i m !! k' = m !! k'.
Proof.
  intros Hne. unfold AliasMap.add.
  destruct (m !! normalise_type_name k) as [[e|]|]; [|done|by rewrite lookup_insert_ne].
  destruct (Nat.eqb e i); [done|by rewrite lookup_insert_ne].
Qed.

Lemma add_lookup_eq k i (m : gmap string (option nat)) :
  AliasMap.add k i m !! normalise_type_name k =
  Some match m !! normalise_type_name k with
       | None => Some i
       | Some (Some e) => if Nat.eqb e i then Some e else None
       | Some None => None
       end.
Proof.
  unfold AliasMap.add.
  destruct (m !! normalise_type_name k) as [[e|]|] eqn:E; [|done|by rewrite lookup_insert_eq].
  destruct (Nat.eqb e i); [done|by rewrite lookup_insert_eq].
Qed.

(** A binding after [add] is the new one on a free key, or an old one
    that was kept. *)
Lemma add_bound k0 id (m : gmap string (option nat)) k i :
  AliasMap.add k0 id m !! k = Some (Some i) ->
  (i = id /\ k = normalise_type_name k0 /\ m !! k = None)
  \/ (m !! k = Some (Some i) /\ (k <> normalise_type_name k0 \/ i = id)).
Proof.
  destruct (decide (k = normalise_type_name k0)) as [->|Hne].
  - rewrite add_lookup_eq. destruct (m !! normalise_type_name k0) as [[e|]|] eqn:E.
    + destruct (Nat.eqb e id) eqn:Ee; [|done]. apply Nat.eqb_eq in Ee. subst e.
      intros H. injection H as <-. right. eauto.
    + done.
    + intros H. injection H as <-. left. eauto.
  - rewrite add_lookup_ne by done. eauto.
Qed.

Lemma add_present k0 id (m : gmap string (option nat)) k :
  is_Some (m !! k) -> is_Some (AliasMap.add k0 id m !! k).
Proof.
  destruct (decide (k = normalise_type_name k0)) as [->|Hne].
  - rewrite add_lookup_eq. eauto.
  - by rewrite add_lookup_ne.
Qed.

Lemma add_present_new k0 id (m : gmap string (option nat)) :
  is_Some (AliasMap.add k0 id m !! normalise_type_name k0).
Proof. rewrite add_lookup_eq. eauto. Qed.

(** A key on which two types meet is ambiguous from then on. *)
Lemma add_ambiguous k0 id (m : gmap string (option nat)) k :
  m !! k = Some None -> AliasMap.add k0 id m !! k = Some None.
Proof.
  intros H. destruct (decide (k = normalise_type_name k0)) as [->|Hne].
  - by rewrite add_lookup_eq, H.
  - by rewrite add_lookup_ne.
Qed.

Lemma alias_ok_empty : alias_ok ∅ [].
Proof. split; [intros k i H; by rewrite lookup_empty in H|intros j t k H; done]. Qed.

Lemma alias_ok_bound amap store : alias_ok amap store -> alias_bound amap store.
Proof. intros [H _] k i Hk. destruct (H k i Hk) as (t & Ht & _). eauto. Qed.

Lemma alias_ok_new_type amap store info :
  alias_ok amap store ->
  alias_ok (AliasMap.add (short_name info) (length store)
              (AliasMap.add (full_name info) (length store) amap))
           (store ++ [info])%list.
Proof.
  intros [H1 H2].
  assert (Hold : forall k i, amap !! k = Some (Some i) -> i < length store).
  { intros k i Hk. destruct (H1 k i Hk) as (t & Ht & _). by eapply lookup_lt_Some. }
  assert (Hnew : (store ++ [info])%list !! length store = Some info).
  { rewrite lookup_app_r by lia. by rewrite Nat.sub_diag. }
  assert (Hsplit : forall j t, (store ++ [info])%list !! j = Some t ->
            (store !! j = Some t /\ j < length store) \/ (j = length store /\ t = info)).
  { intros j t Hj. destruct (decide (j < length store)) as [Hlt|Hge].
    - rewrite lookup_app_l in Hj by done. eauto.
    - right. rewrite lookup_app_r in Hj by lia.
      destruct (j - length store) as [|n] eqn:E; simpl in Hj; [|done].
      injection Hj as <-. split; [lia|done]. }
  set (id := length store) in *. split.
  - intros k i Hk.
    assert (Hcase : (i = id /\ keys_of info k /\ amap !! k = None)
                    \/ (i <> id /\ amap !! k = Some (Some i) /\ ~ keys_of info k)).
    { apply add_bound in Hk as [(-> & -> & Hk)|[Hk Hor]].
      - destruct (decide (normalise_type_name (short_name info)
                          = normalise_type_name (full_name info))) as [E|E].
        + rewrite E in Hk. by rewrite add_lookup_eq in Hk.
        + rewrite add_lookup_ne in Hk by done. left. unfold keys_of. eauto.
      - apply add_bound in Hk as [(-> & -> & Hk)|[Hk Hor']].
        + left. unfold keys_of. eauto.
        + pose proof (Hold _ _ Hk). right. split; [lia|]. split; [done|].
          unfold keys_of. intros [->| ->].
          * destruct Hor' as [?|?]; [done|lia].
          * destruct Hor as [?|?]; [done|lia]. }
    destruct Hcase as [(-> & Hkeys & Hnone)|(Hne & Hk' & Hkeys)].
    + exists info. split; [done|]. split; [done|].
      intros j t' Hj Hkj. apply Hsplit in Hj as [[Hj _]|[-> _]]; [|done].
      destruct (H2 j t' k Hj Hkj) as [x Hx]. congruence.
    + destruct (H1 k i Hk') as (t & Ht & Hkt & Huniq). exists t.
      split; [by apply lookup_app_l_Some|]. split; [done|].
      intros j t' Hj Hkj. apply Hsplit in Hj as [[Hj _]|[-> ->]]; [by eapply Huniq|done].
  - intros j t k Hj Hkj. apply Hsplit in Hj as [[Hj _]|[-> ->]].
    + do 2 apply add_present. by eapply H2.
    + destruct Hkj as [->| ->]; [apply add_present|]; apply add_present_new.
Qed.

Lemma append_field_names f t :
  full_name (append_field f t) = full_name t /\ short_name (append_field f t) = short_name t.
Proof. unfold append_field. by destruct (is_static f). Qed.

Lemma keys_of_append_field f t k : keys_of (append_field f t) k <-> keys_of t k.
Proof.
  unfold keys_of. destruct (append_field_names f t) as [-> ->]. done.
Qed.

Lemma lookup_field_update (store : list TypeInfo) cur t f j t' :
  store !! cur = Some t ->
  <[cur := append_field f t]> store !! j = Some t' ->
  exists t0, store !! j = Some t0 /\ (forall k, keys_of t' k <-> keys_of t0 k).
Proof.
  intros Hcur Hj. destruct (decide (cur = j)) as [->|Hne].
  - rewrite list_lookup_insert_eq in Hj by (by eapply lookup_lt_Some).
    injection Hj as <-. exists t. split; [done|]. intros k. apply keys_of_append_field.
  - rewrite list_lookup_insert_ne in Hj by done. by exists t'.
Qed.

Lemma lookup_field_update_inv (store : list TypeInfo) cur t f j t0 :
  store !! cur = Some t ->
  store !! j = Some t0 ->
  exists t', <[cur := append_field f t]> store !! j = Some t'
             /\ (forall k, keys_of t' k <-> keys_of t0 k).
Proof.
  intros Hcur Hj. destruct (decide (cur = j)) as [->|Hne].
  - exists (append_field f t). rewrite list_lookup_insert_eq by (by eapply lookup_lt_Some).
    split; [done|]. intros k. rewrite keys_of_append_field.
    by replace t0 with t by congruence.
  - exists t0. by rewrite list_lookup_insert_ne.
Qed.

Lemma alias_ok_new_field amap store cur t f :
  store !! cur = Some t -> alias_ok amap store ->
  alias_ok amap (<[cur := append_field f t]> store).
Proof.
  intros Hcur [H1 H2]. split.
  - intros k i Hk. destruct (H1 k i Hk) as (t0 & Ht0 & Hkeys & Huniq).
    destruct (lookup_field_update_inv store cur t f i t0 Hcur Ht0) as (t' & Ht' & Hiff).
    exists t'. split; [done|]. split; [by apply Hiff|].
    intros j t1 Hj Hkj.
    destruct (lookup_field_update store cur t f j t1 Hcur Hj) as (t2 & Ht2 & Hiff2).
    eapply Huniq; [exact Ht2|by apply Hiff2].
  - intros j t1 k Hj Hkj.
    destruct (lookup_field_update store cur t f j t1 Hcur Hj) as (t2 & Ht2 & Hiff2).
    eapply H2; [exact Ht2|by apply Hiff2].
Qed.

(** The scanner keeps the alias map in step with the store. *)
Lemma parse_dump_alias_ok text store amap :
  parse_dump text = Ok (store, amap) -> alias_ok amap store.
Proof.
  apply (parse_dump_invariant (fun s m => alias_ok m s)); [|apply alias_ok_empty].
  intros st st' [E1 E2|info _ _ E1 E2|cur t f np Hcur _ E1 E2] H; rewrite E1, E2.
  - done.
  - by apply alias_ok_new_type.
  - by apply alias_ok_new_field.
Qed.

Lemma sanitize_identifier_nonempty s : sanitize_identifier s <> "".
Proof.
  pose proof (sanitize_identifier_clean s) as H. intros E. rewrite E in H. done.
Qed.

Lemma fields_of_append_field f t g :
  g ∈ (fields (append_field f t) ++ static_fields (append_field f t))%list ->
  g = f \/ g ∈ (fields t ++ static_fields t)%list.
Proof.
  unfold append_field. destruct (is_static f); simpl; rewrite !elem_of_app;
    rewrite ?elem_of_app, ?list_elem_of_singleton; tauto.
Qed.

(** The scanner gives every field a name. *)
Lemma parse_dump_fields_named text store amap :
  parse_dump text = Ok (store, amap) -> fields_named store.
Proof.
  apply (parse_dump_invariant (fun s _ => fields_named s));
    [|intros t f Ht; by apply elem_of_nil in Ht].
  intros st st' [E1 E2|info F1 F2 E1 E2|cur t f np Hcur Hname E1 E2] H; rewrite E1.
  - done.
  - intros t g Ht Hg. apply elem_of_app in Ht as [Ht|Ht]; [by eapply H|].
    apply list_elem_of_singleton in Ht. subst t. rewrite F1, F2 in Hg. by apply elem_of_nil in Hg.
  - intros t' g Ht' Hg. apply list_elem_of_lookup in Ht' as [j Hj].
    destruct (decide (cur = j)) as [->|Hne].
    + rewrite list_lookup_insert_eq in Hj by (by eapply lookup_lt_Some).
      injection Hj as <-. apply fields_of_append_field in Hg as [->|Hg].
      * rewrite Hname. apply sanitize_identifier_nonempty.
      * eapply H; [|exact Hg]. by eapply list_elem_of_lookup_2.
    + rewrite list_lookup_insert_ne in Hj by done.
      eapply H; [|exact Hg]. by eapply list_elem_of_lookup_2.
Qed.

(** C10: [sanitize_identifier] never returns the empty string; where
    nothing is left of the name (as for the marker alone, or for the
    empty string) it returns the name field; and every field that the
    scanner appends to a type has a non-empty name. *)
Theorem field_names_nonempty :
  (forall s, sanitize_identifier s <> "")
  /\ sanitize_identifier "@" = "field"
  /\ sanitize_identifier "" = "field"
  /\ (forall text store amap t f,
        parse_dump text = Ok (store, amap) ->
        t ∈ store -> f ∈ (fields t ++ static_fields t)%list -> name f <> "").
Proof.
  split; [apply sanitize_identifier_nonempty|].
  split; [reflexivity|]. split; [reflexivity|].
  intros text store amap t f Hparse Ht Hf.
  by apply (parse_dump_fields_named text store amap Hparse t f).
Qed.

Lemma field_names_nonempty_witness :
  exists t f,
    parse_dump sample_dump = Ok (parsed_store sample_dump, parsed_amap sample_dump)
    /\ t ∈ parsed_store sample_dump /\ f ∈ (fields t ++ static_fields t)%list
    /\ name f = "ready" /\ name f <> "".
Proof.
  assert (Hparse : parse_dump sample_dump
                   = Ok (parsed_store sample_dump, parsed_amap sample_dump))
    by (vm_compute; reflexivity).
  assert (H : exists t f, parsed_store sample_dump !! 0 = Some t
                          /\ (fields t ++ static_fields t)%list !! 1 = Some f
                          /\ name f = "ready").
  { do 2 eexists. split; [vm_compute; reflexivity|]. split; reflexivity. }
  destruct H as (t & f & Ht & Hf & Hname).
  apply list_elem_of_lookup_2 in Ht, Hf.
  exists t, f.
  split; [exact Hparse|]. split; [exact Ht|]. split; [exact Hf|]. split; [exact Hname|].
  exact (proj2 (proj2 (proj2 field_names_nonempty)) sample_dump _ _ t f Hparse Ht Hf).
Defined.

(** ** The type resolver *)

Lemma split_nonempty sep s : Py.split sep s <> [].
Proof.
  induction s as [|c t IH]; simpl; [done|].
  destruct (Py.eqc c sep); [done|]. by destruct (Py.split sep t).
Qed.

Lemma last_is_Some {A : Type} (l : list A) : l <> [] -> is_Some (last l).
Proof. destruct l as [|a l] using rev_ind; [done|]. rewrite last_snoc. eauto. Qed.

(** [resolve] never raises, and what it finds is bound in the map. *)
Lemma resolve_ok name (m : gmap string (option nat)) :
  exists r, AliasMap.resolve name m = Ok r
            /\ forall i, r = Some i -> exists k, m !! k = Some (Some i).
Proof.
  unfold AliasMap.resolve.
  assert (Hget : forall k i, AliasMap.get m k = Some i -> m !! k = Some (Some i)).
  { intros k i. unfold AliasMap.get. destruct (m !! k) as [[j|]|]; congruence. }
  destruct (AliasMap.get m (normalise_type_name name)) as [i|] eqn:E1.
  - eexists. split; [done|]. intros j [= <-]. eauto.
  - destruct (last_is_Some (Py.split "." (normalise_type_name name))) as [simple ->];
      [apply split_nonempty|].
    destruct (AliasMap.get m simple) as [i|] eqn:E2.
    + eexists. split; [done|]. intros j [= <-]. eauto.
    + eexists. split; [done|]. done.
Qed.

Lemma append_nonempty a b : a <> "" -> a ++ b <> "".
Proof. by destruct a. Qed.

Lemma primitive_values_nonempty k v : PRIMITIVE_MAP !! k = Some v -> v <> "".
Proof.
  unfold PRIMITIVE_MAP. intros H%elem_of_list_to_map_2.
  repeat (apply elem_of_cons in H as [H|H]; [by injection H as -> ->|]).
  by apply elem_of_nil in H.
Qed.

Lemma primitive_of_nonempty k p : primitive_of k = Some p -> p <> "".
Proof.
  unfold primitive_of. destruct (PRIMITIVE_MAP !! k) as [v|] eqn:E; [|done].
  destruct (Py.truthy v); [|done]. intros [= <-]. by eapply primitive_values_nonempty.
Qed.

Lemma mem_In x l : mem x l = true <-> In x l.
Proof.
  unfold mem. rewrite existsb_exists. split.
  - intros (y & Hy & E). apply String.eqb_eq in E. by subst.
  - intros H. exists x. split; [done|apply String.eqb_refl].
Qed.

Lemma intptr_is_primitive w :
  mem w ["IntPtr"; "System.IntPtr"] = true -> primitive_of w <> None.
Proof. intros [<-|[<-|[]]]%mem_In; done. Qed.

Lemma enum_base_nonempty b : default "int32_t" (PRIMITIVE_MAP !! enum_key b) <> "".
Proof.
  destruct (PRIMITIVE_MAP !! enum_key b) as [v|] eqn:E; simpl; [|done].
  by eapply primitive_values_nonempty.
Qed.

(** The result of [convert_type], case by case. *)
Lemma convert_type_cases original amap store :
  alias_bound amap store ->
  (exists p, primitive_of (base_name original) = Some p
     /\ convert_type original amap store =
        Ok (if Nat.ltb 0 (array_count original) then "Il2CppArray*"
            else p ++ snd (fst (split_markers original)), None))
  \/ (primitive_of (base_name original) = None
      /\ AliasMap.resolve (base_name original) amap = Ok None
      /\ convert_type original amap store =
         Ok (if Nat.ltb 0 (array_count original) then "Il2CppArray*" else "Il2CppObject*",
             None))
  \/ (exists i t, primitive_of (base_name original) = None
      /\ AliasMap.resolve (base_name original) amap = Ok (Some i)
      /\ store !! i = Some t
      /\ convert_type original amap store =
         Ok (if Nat.ltb 0 (array_count original) then "Il2CppArray*"
             else (if is_enum t
                   then default "int32_t" (PRIMITIVE_MAP !! enum_key (enum_base t))
                   else if is_value_type t then struct_name t ++ "_o"
                   else struct_name t ++ "_o*") ++ snd (fst (split_markers original)),
             if is_value_type t then Some i else None)).
Proof.
  intros Hb. unfold convert_type, base_name, array_count.
  destruct (split_markers original) as [[w suf] n]. cbn [fst snd].
  destruct (primitive_of w) as [p|] eqn:Ep.
  { left. exists p. split; [done|]. by destruct (Nat.ltb 0 n). }
  right. destruct (resolve_ok w amap) as (r & Hr & Hbound). rewrite Hr. cbn [bind].
  destruct r as [i|].
  - right. destruct (Hbound i eq_refl) as [k Hk].
    destruct (Hb k i Hk) as [t Ht]. exists i, t.
    split; [done|]. split; [done|]. split; [done|].
    unfold deref. rewrite Ht. cbn [bind]. by destruct (Nat.ltb 0 n).
  - left. split; [done|]. split; [done|].
    destruct (Nat.ltb 0 n); [done|].
    destruct (mem w ["IntPtr"; "System.IntPtr"]) eqn:Em; [|done].
    by apply intptr_is_primitive in Em.
Qed.

(** C1: resolution is total.  For every declared-type string, over an
    alias map whose bindings point into the store, [convert_type] returns
    a native type expression that is not empty, and raises nothing; a base
    name that is neither a primitive nor resolved by the alias map, and
    carries no array marker, becomes the generic object pointer. *)
Theorem convert_type_total original amap store :
  alias_bound amap store ->
  exists c dep,
    convert_type original amap store = Ok (c, dep) /\ c <> ""
    /\ (primitive_of (base_name original) = None ->
        AliasMap.resolve (base_name original) amap = Ok None ->
        array_count original = 0 ->
        c = "Il2CppObject*" /\ dep = None).
Proof.
  intros Hb.
  destruct (convert_type_cases original amap store Hb)
    as [(p & Hp & ->)|[(Hp & Hr & ->)|(i & t & Hp & Hr & Ht & ->)]].
  - do 2 eexists. split; [done|]. split; [|congruence].
    destruct (Nat.ltb 0 _); [done|]. by eapply append_nonempty, primitive_of_nonempty.
  - do 2 eexists. split; [done|]. split; [by destruct (Nat.ltb 0 _)|].
    intros _ _ ->. done.
  - do 2 eexists. split; [done|]. split; [|congruence].
    destruct (Nat.ltb 0 _); [done|]. apply append_nonempty.
    destruct (is_enum t); [apply enum_base_nonempty|].
    destruct (is_value_type t); intros E; by destruct (struct_name t).
Qed.

Lemma convert_type_total_witness :
  exists c dep,
    alias_bound (parsed_amap sample_dump) (parsed_store sample_dump)
    /\ convert_type "List<Missing>" (parsed_amap sample_dump) (parsed_store sample_dump)
       = Ok (c, dep)
    /\ c = "Il2CppObject*" /\ dep = None.
Proof.
  assert (Hparse : parse_dump sample_dump
                   = Ok (parsed_store sample_dump, parsed_amap sample_dump))
    by (vm_compute; reflexivity).
  pose proof (alias_ok_bound _ _ (parse_dump_alias_ok _ _ _ Hparse)) as Hb.
  destruct (convert_type_total "List<Missing>" _ _ Hb) as (c & dep & Hc & _ & Hfall).
  exists c, dep. split; [exact Hb|]. split; [exact Hc|].
  apply Hfall; vm_compute; reflexivity.
Defined.

(** C2, as the code has it: a declared type with at least one array
    marker resolves to the generic array type without pointer suffix; the
    dependency output is the type the base name resolves to when that is
    a value type (struct or enum), and is absent otherwise. *)
Theorem convert_type_array original amap store :
  alias_bound amap store ->
  0 < array_count original ->
  exists dep,
    convert_type original amap store = Ok ("Il2CppArray*", dep)
    /\ forall i, dep = Some i <->
          primitive_of (base_name original) = None
          /\ AliasMap.resolve (base_name original) amap = Ok (Some i)
          /\ exists t, store !! i = Some t /\ is_value_type t = true.
Proof.
  intros Hb Hn. apply Nat.ltb_lt in Hn.
  destruct (convert_type_cases original amap store Hb)
    as [(p & Hp & ->)|[(Hp & Hr & ->)|(i & t & Hp & Hr & Ht & ->)]]; rewrite Hn.
  - eexists. split; [done|]. intros i. split; [done|]. intros [? _]. congruence.
  - eexists. split; [done|]. intros i. split; [done|]. intros (_ & ? & _). congruence.
  - eexists. split; [done|]. intros j. split.
    + destruct (is_value_type t) eqn:Ev; [|done]. intros [= <-]. eauto.
    + intros (_ & Hr' & t' & Ht' & Hv). assert (j = i) as -> by congruence.
      assert (t' = t) as -> by congruence. by rewrite Hv.
Qed.

Lemma convert_type_array_witness :
  exists dep,
    alias_bound (parsed_amap array_dump) (parsed_store array_dump)
    /\ 0 < array_count "Missing[][]"
    /\ convert_type "Missing[][]" (parsed_amap array_dump) (parsed_store array_dump)
       = Ok ("Il2CppArray*", dep).
Proof.
  assert (Hparse : parse_dump array_dump
                   = Ok (parsed_store array_dump, parsed_amap array_dump))
    by (vm_compute; reflexivity).
  pose proof (alias_ok_bound _ _ (parse_dump_alias_ok _ _ _ Hparse)) as Hb.
  assert (Hn : 0 < array_count "Missing[][]") by (vm_compute; lia).
  destruct (convert_type_array "Missing[][]" _ _ Hb Hn) as (dep & Hc & _).
  exists dep. split; [exact Hb|]. split; [exact Hn|exact Hc].
Defined.

(** C2, as the claim has it, fails: the array of a struct keeps the struct
    as its dependency. *)
Lemma convert_type_array_keeps_dependency :
  parse_dump array_dump = Ok (parsed_store array_dump, parsed_amap array_dump)
  /\ array_count "Vec[]" = 1
  /\ convert_type "Vec[]" (parsed_amap array_dump) (parsed_store array_dump)
     = Ok ("Il2CppArray*", Some 0)
  /\ convert_type "Vec[]" (parsed_amap array_dump) (parsed_store array_dump)
     <> Ok ("Il2CppArray*", None).
Proof.
  assert (E : convert_type "Vec[]" (parsed_amap array_dump) (parsed_store array_dump)
              = Ok ("Il2CppArray*", Some 0)) by (vm_compute; reflexivity).
  split; [vm_compute; reflexivity|]. split; [vm_compute; reflexivity|].
  split; [exact E|]. rewrite E. discriminate.
Qed.

(** ** Ambiguous short names *)














(** ** The renderer *)

Lemma emit_unfold n amap store st i :
  emit (S n) amap store st i =
  (info <- deref store i ;;
   if is_enum info then Ok st
   else if bool_decide (struct_name info ∈ emitted st) then Ok st
   else
     parent_id <- resolve_parent amap info ;;
     st1 <- match parent_id with
            | Some p => emit n amap store st p
            | None => Ok st
            end ;;
     st2 <- foldM (emit_field n amap store) st1 (fields info ++ static_fields info)%list ;;
     chunk <- render_type info amap store ;;
     Ok (mkEmitState ({[struct_name info]} ∪ emitted st2) (chunks st2 ++ [chunk])
           (order st2 ++ [i]))).
Proof. reflexivity. Qed.





Lemma emit_inv_empty amap store : emit_inv amap store empty_emit.
Proof.
  split; simpl.
  - intros n Hn. by apply elem_of_empty in Hn.
  - constructor.
  - constructor.
  - intros j Hj. by apply elem_of_nil in Hj.
Qed.

Lemma emit_post_refl amap store st : emit_inv amap store st -> emit_post amap store st st.
Proof. intros H. split; [done|done|]. exists []. by rewrite app_nil_r. Qed.

Lemma emit_post_trans amap store st1 st2 st3 :
  emit_post amap store st1 st2 -> emit_post amap store st2 st3 ->
  emit_post amap store st1 st3.
Proof.
  intros [_ H1 [l1 E1]] [H2 H3 [l2 E2]]. split; [done|set_solver|].
  exists (l1 ++ l2)%list. by rewrite E2, E1, app_assoc.
Qed.

Section emit_correct.
Variable amap : gmap string (option nat).
Variable store : list TypeInfo.

Lemma emit_fields_ok n l :
  emit_ok amap store n ->
  forall st st', foldM (emit_field n amap store) st l = Ok st' -> emit_inv amap store st ->
    emit_post amap store st st'
    /\ forall f a ta, f ∈ l -> referenced f = Some a -> store !! a = Some ta ->
         is_enum ta = false -> struct_name ta ∈ emitted st'.
Proof.
  intros Hn. induction l as [|f l IH]; intros st st' H Hinv; simpl in H.
  - injection H as <-. split; [by apply emit_post_refl|].
    intros f a ta Hf. by apply elem_of_nil in Hf.
  - apply bind_ok in H as (st1 & H1 & H).
    assert (Hstep : emit_post amap store st st1
              /\ forall a ta, referenced f = Some a -> store !! a = Some ta ->
                   is_enum ta = false -> struct_name ta ∈ emitted st1).
    { unfold emit_field in H1. destruct (referenced f) as [r|].
      - destruct (Hn _ _ _ H1 Hinv) as [Hp Hr]. split; [done|].
        intros a ta [= <-]. apply Hr.
      - injection H1 as <-. split; [by apply emit_post_refl|done]. }
    destruct Hstep as [Hp1 Hr1].
    destruct (IH _ _ H (post_inv _ _ _ _ Hp1)) as [Hp2 Hr2].
    split; [by eapply emit_post_trans|].
    intros g a ta Hg Hga Ha He. apply elem_of_cons in Hg as [->|Hg].
    + apply (post_emitted _ _ _ _ Hp2). by eapply Hr1.
    + by eapply Hr2.
Qed.

Lemma emit_ok_all n : emit_ok amap store n.
Proof.
  induction n as [|n IH]; intros st i st' H Hinv; [done|].
  rewrite emit_unfold in H. apply bind_ok in H as (info & Hinfo & H).
  unfold deref in Hinfo. destruct (store !! i) as [info'|] eqn:Ei; [|done].
  injection Hinfo as ->.
  destruct (is_enum info) eqn:Eenum.
  { injection H as <-. split; [by apply emit_post_refl|]. intros t [= <-]. congruence. }
  destruct (bool_decide (struct_name info ∈ emitted st)) eqn:Edec.
  { injection H as <-. split; [by apply emit_post_refl|]. intros t [= <-] _.
    by apply bool_decide_eq_true in Edec. }
  apply bind_ok in H as (pid & Hpid & H). apply bind_ok in H as (st1 & H1 & H).
  apply bind_ok in H as (st2 & H2 & H). apply bind_ok in H as (chunk & Hchunk & H).
  injection H as <-.
  assert (Hparent : emit_post amap store st st1
            /\ forall a ta, pid = Some a -> store !! a = Some ta ->
                 is_enum ta = false -> struct_name ta ∈ emitted st1).
  { destruct pid as [p|].
    - destruct (IH _ _ _ H1 Hinv) as [Hp Hr]. split; [done|]. intros a ta [= <-]. apply Hr.
    - injection H1 as <-. split; [by apply emit_post_refl|done]. }
  destruct Hparent as [Hp1 Hr1].
  destruct (emit_fields_ok n _ IH _ _ H2 (post_inv _ _ _ _ Hp1)) as [Hp2 Hr2].
  pose proof (emit_post_trans _ _ _ _ _ Hp1 Hp2) as Hp.
  destruct Hp as [Hinv2 Hsub [l Hl]].
  split; [split|].
  - split; simpl.
    + intros n0 [Hn0|Hn0]%elem_of_union.
      * apply elem_of_singleton in Hn0. subst n0. exists i, info.
        split; [apply elem_of_app; right; by apply list_elem_of_singleton|done].
      * destruct (inv_emitted _ _ _ Hinv2 n0 Hn0) as (j & t & Hj & Ht & Hname).
        exists j, t. split; [apply elem_of_app; by left|done].
    + apply ordered_snoc; [by apply (inv_ordered _ _ _ Hinv2)|].
      intros a ta (tb & Htb & Hdep) Ha Hea.
      assert (tb = info) as -> by congruence.
      assert (Hin : struct_name ta ∈ emitted st2).
      { destruct Hdep as [Hpar|(f & Hf & Hfa)].
        - apply (post_emitted _ _ _ _ Hp2). apply (Hr1 a ta); [congruence|done|done].
        - by apply (Hr2 f a ta). }
      destruct (inv_emitted _ _ _ Hinv2 _ Hin) as (j & t & Hj & Ht & Hname).
      exists j. split; [done|]. by exists t, ta.
    + apply Forall2_app; [by apply (inv_rendered _ _ _ Hinv2)|].
      apply List.Forall2_cons; [by exists info|constructor].
    + intros j [Hj|Hj]%elem_of_app; [by apply (inv_no_enum _ _ _ Hinv2)|].
      apply list_elem_of_singleton in Hj. subst j. by exists info.
  - simpl. set_solver.
  - simpl. exists (l ++ [i])%list. by rewrite Hl, app_assoc.
  - intros t [= <-] _. simpl. set_solver.
Qed.

Lemma emit_all_inv n st :
  emit_all n amap store = Ok st -> emit_inv amap store st.
Proof.
  unfold emit_all. generalize (seq 0 (length store)). intros ids.
  assert (Hgen : forall st0, emit_inv amap store st0 ->
            foldM (emit n amap store) st0 ids = Ok st -> emit_inv amap store st).
  { induction ids as [|i ids IHids]; intros st0 Hinv H; simpl in H.
    - by injection H as <-.
    - apply bind_ok in H as (st1 & H1 & H).
      destruct (emit_ok_all n _ _ _ H1 Hinv) as [Hp _].
      by apply (IHids st1 (post_inv _ _ _ _ Hp)). }
  intros H. by apply (Hgen empty_emit (emit_inv_empty _ _)).
Qed.
End emit_correct.

(** ** Dependency order *)

Lemma ordered_split amap store l :
  ordered amap store l ->
  forall l1 b l2 a ta, l = (l1 ++ b :: l2)%list ->
    depends_on amap store b a -> store !! a = Some ta -> is_enum ta = false ->
    exists j, j ∈ l1 /\ same_struct_name store j a.
Proof.
  induction 1 as [|l b0 Hord IH Hdeps]; intros l1 b l2 a ta E Hdep Ha He.
  - by destruct l1.
  - destruct l2 as [|x l2 _] using rev_ind.
    + apply app_inj_tail in E as [-> ->]. by eapply Hdeps.
    + rewrite app_comm_cons, app_assoc in E. apply app_inj_tail in E as [-> _].
      by eapply IH.
Qed.

Lemma mapM_ok_map {A B C : Type} (f : A -> result B) (g : A -> C) (h : B -> C) l l' :
  (forall a b, f a = Ok b -> h b = g a) -> mapM f l = Ok l' -> map h l' = map g l.
Proof.
  intros Hf. revert l'. induction l as [|a l IH]; intros l' H; simpl in H.
  - by injection H as <-.
  - apply bind_ok in H as (b & Hb & H). apply bind_ok in H as (bs & Hbs & H).
    injection H as <-. simpl. by rewrite (Hf _ _ Hb), (IH _ Hbs).
Qed.

Lemma resolve_field_types_names type_infos amap store :
  resolve_field_types type_infos amap = Ok store ->
  map struct_name store = map struct_name type_infos.
Proof.
  apply mapM_ok_map. intros t t' H. unfold resolve_type in H.
  apply bind_ok in H as (fs & _ & H). apply bind_ok in H as (sfs & _ & H).
  by injection H as <-.
Qed.

Lemma same_struct_name_eq store j a :
  NoDup (map struct_name store) -> same_struct_name store j a -> j = a.
Proof.
  intros Hnd (t & ta & Hj & Ha & E).
  apply (NoDup_lookup _ j a (struct_name t) Hnd); rewrite list_lookup_fmap.
  - by rewrite Hj.
  - by rewrite Ha, E.
Qed.

(** C3, as the code has it: when the structure names of the discovered
    types are pairwise distinct and [generate_header] returns, the output
    is the two preambles followed by the rendered groups in emission
    order, and for all emitted types A and B where A is the resolvable
    parent of B or the dependency recorded for a field of B, the group of
    A comes before the group of B. *)
Theorem dependency_order fuel type_infos amap version out :
  generate_header fuel type_infos amap version = Ok out ->
  NoDup (map struct_name type_infos) ->
  exists store st variant,
    resolve_field_types type_infos amap = Ok store
    /\ emit_all fuel amap store = Ok st
    /\ HEADER_VARIANTS !! version = Some variant
    /\ out = Py.concat (GENERIC_HEADER :: variant :: chunks st)
    /\ Forall2 (rendered amap store) (order st) (chunks st)
    /\ forall a b, a ∈ order st -> b ∈ order st -> depends_on amap store b a ->
         exists l1 l2 l3, order st = (l1 ++ a :: l2 ++ b :: l3)%list.
Proof.
  unfold generate_header. intros H Hnd.
  apply bind_ok in H as (store & Hstore & H). apply bind_ok in H as (st & Hst & H).
  destruct (HEADER_VARIANTS !! version) as [variant|] eqn:Ev; [|done].
  destruct (Py.truthy variant); [|done]. injection H as <-.
  exists store, st, variant. do 4 (split; [done|]).
  pose proof (emit_all_inv _ _ _ _ Hst) as Hinv.
  split; [by apply (inv_rendered _ _ _ Hinv)|].
  intros a b Ha Hb Hdep.
  rewrite <- (resolve_field_types_names _ _ _ Hstore) in Hnd.
  destruct (inv_no_enum _ _ _ Hinv a Ha) as (ta & Hta & Hea).
  apply list_elem_of_split in Hb as (l1 & l3 & E).
  destruct (ordered_split _ _ _ (inv_ordered _ _ _ Hinv) l1 b l3 a ta E Hdep Hta Hea)
    as (j & Hj & Hsame).
  apply (same_struct_name_eq _ _ _ Hnd) in Hsame. subst j.
  apply list_elem_of_split in Hj as (l1a & l1b & ->).
  exists l1a, l1b, l3. by rewrite E, <- app_assoc.
Qed.


Lemma NoDup_by_decide (l : list string) : bool_decide (NoDup l) = true -> NoDup l.
Proof. apply bool_decide_eq_true_1. Qed.

Lemma dependency_order_witness :
  exists out,
    generate_header 8 (parsed_store sample_dump) (parsed_amap sample_dump) "29" = Ok out
    /\ order (emitted_state 8 sample_dump) = [1; 0]
    /\ depends_on (parsed_amap sample_dump) (resolved_store sample_dump) 0 1
    /\ exists l1 l2 l3, order (emitted_state 8 sample_dump) = (l1 ++ 1 :: l2 ++ 0 :: l3)%list.
Proof.
  assert (Hout : exists out,
            generate_header 8 (parsed_store sample_dump) (parsed_amap sample_dump) "29"
            = Ok out) by (eexists; vm_compute; reflexivity).
  destruct Hout as [out Hout]. exists out. split; [exact Hout|].
  assert (Hnd : NoDup (map struct_name (parsed_store sample_dump)))
    by (apply NoDup_by_decide; vm_compute; reflexivity).
  destruct (dependency_order _ _ _ _ _ Hout Hnd)
    as (store & st & variant & Hstore & Hst & _ & _ & _ & Horder).
  assert (Es : store = resolved_store sample_dump).
  { unfold resolved_store. rewrite Hstore. reflexivity. }
  subst store.
  assert (Et : st = emitted_state 8 sample_dump).
  { unfold emitted_state. rewrite Hst. reflexivity. }
  subst st.
  assert (Eo : order (emitted_state 8 sample_dump) = [1; 0]) by (vm_compute; reflexivity).
  split; [exact Eo|].
  assert (Hdep : depends_on (parsed_amap sample_dump) (resolved_store sample_dump) 0 1).
  { eexists. split; [vm_compute; reflexivity|]. left. vm_compute. reflexivity. }
  split; [exact Hdep|].
  apply Horder; [| |exact Hdep]; rewrite Eo.
  - apply elem_of_cons; left; reflexivity.
  - apply elem_of_cons; right; apply elem_of_cons; left; reflexivity.
Defined.

(** C3, as the claim has it, fails: with two structs of one structure
    name, a struct is emitted after a struct that embeds it. *)
Lemma dependency_order_fails :
  (exists out,
     generate_header 8 (parsed_store order_dump) (parsed_amap order_dump) "29" = Ok out)
  /\ order (emitted_state 8 order_dump) = [1; 2; 0]
  /\ depends_on (parsed_amap order_dump) (resolved_store order_dump) 2 0
  /\ ~ exists l1 l2 l3, order (emitted_state 8 order_dump) = (l1 ++ 0 :: l2 ++ 2 :: l3)%list.
Proof.
  assert (Eo : order (emitted_state 8 order_dump) = [1; 2; 0]) by (vm_compute; reflexivity).
  split; [eexists; vm_compute; reflexivity|]. split; [exact Eo|]. split.
  - eexists. split; [vm_compute; reflexivity|]. right.
    eexists. split; [apply (list_elem_of_lookup_2 _ 0); reflexivity|]. reflexivity.
  - rewrite Eo. clear Eo. intros (l1 & l2 & l3 & E).
    destruct l1 as [|x1 [|x2 [|x3 l1]]]; simplify_eq/=.
    + by destruct l2.
    + by destruct l1.
Qed.

(** ** Determinism *)



(** ** Unsupported versions *)

Lemma unsupported_variant version :
  version ∉ version_choices -> HEADER_VARIANTS !! version = None.
Proof. intros H. unfold HEADER_VARIANTS. by apply not_elem_of_list_to_map_1. Qed.

Lemma mem_elem_of x l : mem x l = true <-> x ∈ l.
Proof. rewrite mem_In. symmetry. apply list_elem_of_In. Qed.

(** C6: for every version identifier outside the supported set, no output
    is produced: [generate_header] returns no text, and raises the error
    of the unsupported version once resolution and emission are through;
    the part of [main] before the write returns no text; and [main]
    leaves the file system as it was and ends with an error. *)
Theorem unsupported_version fuel version :
  version ∉ version_choices ->
  (forall type_infos amap out, generate_header fuel type_infos amap version <> Ok out)
  /\ (forall type_infos amap store st,
        resolve_field_types type_infos amap = Ok store ->
        emit_all fuel amap store = Ok st ->
        generate_header fuel type_infos amap version
        = Raise (ValueError ("Unsupported header version: " ++ version)))
  /\ (forall args fs out, header_version args = version -> main_text fuel args fs <> Ok out)
  /\ (forall dump_opt output_opt fs,
        main fuel dump_opt output_opt (Some version) fs
        = (fs, Raise (SystemExit ("argument --header-version: invalid choice: " ++ version)))).
Proof.
  intros Hv. pose proof (unsupported_variant _ Hv) as Hnone.
  assert (Hgen : forall type_infos amap out,
            generate_header fuel type_infos amap version <> Ok out).
  { intros tis amap out H. unfold generate_header in H.
    apply bind_ok in H as (store & _ & H). apply bind_ok in H as (st & _ & H).
    by rewrite Hnone in H. }
  split; [exact Hgen|]. split; [|split].
  - intros tis amap store st Hs He. unfold generate_header.
    rewrite Hs. cbn [bind]. rewrite He. cbn [bind]. by rewrite Hnone.
  - intros args fs out <- H. unfold main_text in H.
    destruct (fs !! dump args); [|done].
    apply bind_ok in H as (parsed & _ & H). destruct (fst parsed); [done|].
    by apply Hgen in H.
  - intros d o fs. unfold main, parse_args.
    change (default "29" (Some version)) with version.
    destruct (mem version version_choices) eqn:E; [|reflexivity].
    by apply mem_elem_of in E.
Qed.

Lemma unsupported_version_witness :
  main 8 (Some "dump.cs") (Some "il2cpp.h") (Some "30") {["dump.cs" := sample_dump]}
  = ({["dump.cs" := sample_dump]},
     Raise (SystemExit "argument --header-version: invalid choice: 30")).
Proof.
  assert (Hv : "30" ∉ version_choices).
  { intros H. apply mem_elem_of in H. vm_compute in H. discriminate. }
  exact (proj2 (proj2 (proj2 (unsupported_version 8 "30" Hv)))
           (Some "dump.cs") (Some "il2cpp.h") {["dump.cs" := sample_dump]}).
Defined.

(** ** Emission at most once, and termination *)

(** A type that is an enum, or whose structure name is in the emitted
    set, adds nothing. *)
Lemma emit_again n amap store st i t :
  store !! i = Some t ->
  is_enum t = true \/ struct_name t ∈ emitted st ->
  emit (S n) amap store st i = Ok st.
Proof.
  intros Hi H. rewrite emit_unfold. unfold deref. rewrite Hi. cbn [bind].
  destruct (is_enum t); [done|]. destruct H as [H|H]; [done|].
  by rewrite bool_decide_eq_true_2.
Qed.

(** C4 fails on the code: a class whose parent has the same structure
    name is rendered after its parent, so that the output has two groups
    for one structure name. *)
Theorem duplicate_group :
  parse_dump duplicate_dump
  = Ok (parsed_store duplicate_dump, parsed_amap duplicate_dump)
  /\ order (emitted_state 8 duplicate_dump) = [1; 0]
  /\ struct_name <$> resolved_store duplicate_dump !! 1 = Some "A_B"
  /\ struct_name <$> resolved_store duplicate_dump !! 0 = Some "A_B"
  /\ generate_header 8 (parsed_store duplicate_dump) (parsed_amap duplicate_dump) "29"
     = Ok (generated_header 8 duplicate_dump "29")
  /\ occurrences ("struct A_B_Fields" ++ nl) (generated_header 8 duplicate_dump "29") = 2
  /\ occurrences ("struct A_B_o" ++ nl) (generated_header 8 duplicate_dump "29") = 2.
Proof. repeat (split; [vm_compute; reflexivity|]). vm_compute; reflexivity. Qed.

Lemma cycle_facts :
  exists tA tB fA fB,
    resolved_store cycle_dump !! 0 = Some tA /\ resolved_store cycle_dump !! 1 = Some tB
    /\ is_enum tA = false /\ is_enum tB = false
    /\ parent tA = None /\ parent tB = None
    /\ (fields tA ++ static_fields tA)%list = [fA]
    /\ (fields tB ++ static_fields tB)%list = [fB]
    /\ referenced fA = Some 1 /\ referenced fB = Some 0.
Proof.
  do 4 eexists. (split; [vm_compute; reflexivity|]). (split; [vm_compute; reflexivity|]).
  (repeat split; reflexivity).
Qed.

Lemma emit_cycle n :
  emit n (parsed_amap cycle_dump) (resolved_store cycle_dump) empty_emit 0 = Timeout
  /\ emit n (parsed_amap cycle_dump) (resolved_store cycle_dump) empty_emit 1 = Timeout.
Proof.
  destruct cycle_facts
    as (tA & tB & fA & fB & HA & HB & EA & EB & PA & PB & FA & FB & RA & RB).
  induction n as [|n [IH0 IH1]]. (split; reflexivity).
  rewrite !emit_unfold. unfold deref. rewrite HA, HB. cbn [bind]. rewrite EA, EB.
  rewrite !bool_decide_eq_false_2 by (cbn [emitted empty_emit]; apply not_elem_of_empty).
  unfold resolve_parent. rewrite PA, PB. cbn [bind]. rewrite FA, FB. cbn [foldM].
  unfold emit_field. rewrite RA, RB. rewrite IH0, IH1. (split; reflexivity).
Qed.

(** C7 fails on the code: for two structs that each have a field of the
    other, [emit] calls itself without end, whatever the recursion budget;
    [generate_header] and [main] return nothing. *)
Theorem emit_cycle_diverges (fuel : nat) :
  parse_dump cycle_dump = Ok (parsed_store cycle_dump, parsed_amap cycle_dump)
  /\ generate_header fuel (parsed_store cycle_dump) (parsed_amap cycle_dump) "29" = Timeout
  /\ main fuel (Some "dump.cs") (Some "il2cpp.h") (Some "29") {["dump.cs" := cycle_dump]}
     = ({["dump.cs" := cycle_dump]}, Timeout).
Proof.
  assert (Hparse : parse_dump cycle_dump
                   = Ok (parsed_store cycle_dump, parsed_amap cycle_dump))
    by (vm_compute; reflexivity).
  assert (Hres : resolve_field_types (parsed_store cycle_dump) (parsed_amap cycle_dump)
                 = Ok (resolved_store cycle_dump)) by (vm_compute; reflexivity).
  assert (Hlen : length (resolved_store cycle_dump) = 2) by (vm_compute; reflexivity).
  assert (Hgen : generate_header fuel (parsed_store cycle_dump) (parsed_amap cycle_dump) "29"
                 = Timeout).
  { unfold generate_header. rewrite Hres. cbn [bind]. unfold emit_all. rewrite Hlen.
    cbn [seq foldM]. rewrite (proj1 (emit_cycle fuel)). reflexivity. }
  split; [exact Hparse|]. split; [exact Hgen|].
  unfold main, parse_args. change (default "29" (Some "29")) with "29".
  change (mem "29" version_choices) with true. cbn [bind].
  unfold main_text. cbn [dump header_version default].
  rewrite lookup_singleton_eq. rewrite Hparse. cbn [bind fst snd].
  assert (Hne : exists t l, parsed_store cycle_dump = t :: l)
    by (do 2 eexists; vm_compute; reflexivity).
  destruct Hne as (t & l & Hne). rewrite Hne at 1. rewrite Hgen. reflexivity.
Qed.

(** * Further properties of the code *)

(** ** Shape of sanitized names *)

(** A sanitized structure name has none of the characters that
    [sanitize_struct_name] replaces or removes, no two underscores in a
    row and no underscore in front. *)
Theorem sanitize_struct_name_shape (s : string) :
  all_chars (fun c => negb (struct_special c)) (sanitize_struct_name s) = true
  /\ no_double (sanitize_struct_name s) = true
  /\ Py.startswith "_" (sanitize_struct_name s) = false.
Proof.
  pose proof (sanitize_struct_name_clean s) as H. unfold struct_clean in H.
  apply andb_true_iff in H as [H H3]. apply andb_true_iff in H as [H1 H2].
  apply negb_true_iff in H3. auto.
Qed.

(** A sanitized identifier is an identifier of C: letters, digits and
    underscores only, at least one character, no digit in front; and it
    has no two underscores in a row. *)
Theorem sanitize_identifier_shape (s : string) :
  all_chars ident_char (sanitize_identifier s) = true
  /\ no_double (sanitize_identifier s) = true
  /\ exists c t, sanitize_identifier s = String c t /\ Py.isdigit c = false.
Proof.
  pose proof (sanitize_identifier_clean s) as H. unfold ident_clean in H.
  apply andb_true_iff in H as [H H3]. apply andb_true_iff in H as [H1 H2].
  split; [exact H1|]. split; [exact H2|].
  destruct (sanitize_identifier s) as [|c t]; [discriminate|].
  exists c, t. split; [reflexivity|]. by apply negb_true_iff in H3.
Qed.

(** ** The life of a key of the alias map *)

Lemma add_same k i (m : gmap string (option nat)) :
  AliasMap.add k i (AliasMap.add k i m) = AliasMap.add k i m.
Proof.
  apply map_eq. intros k'. destruct (decide (k' = normalise_type_name k)) as [->|Hne].
  - rewrite !add_lookup_eq. destruct (m !! normalise_type_name k) as [[e|]|]; [|done|].
    + destruct (Nat.eqb e i) eqn:E; [by rewrite E|done].
    + by rewrite Nat.eqb_refl.
  - by rewrite !add_lookup_ne.
Qed.

(** [add] on a free key binds it; adding the same type again changes
    nothing; adding another type marks the key ambiguous, and no later
    [add] brings a binding back; other keys are never touched. *)
Theorem alias_key_lifecycle k i j (m : gmap string (option nat)) :
  m !! normalise_type_name k = None -> i <> j ->
  AliasMap.add k i m !! normalise_type_name k = Some (Some i)
  /\ AliasMap.add k i (AliasMap.add k i m) = AliasMap.add k i m
  /\ AliasMap.add k j (AliasMap.add k i m) !! normalise_type_name k = Some None
  /\ (forall x, AliasMap.add k x (AliasMap.add k j (AliasMap.add k i m)) !! normalise_type_name k
                = Some None)
  /\ (forall k' x, k' <> normalise_type_name k -> AliasMap.add k x m !! k' = m !! k').
Proof.
  intros Hfree Hij.
  assert (H1 : AliasMap.add k i m !! normalise_type_name k = Some (Some i))
    by (by rewrite add_lookup_eq, Hfree).
  assert (H2 : AliasMap.add k j (AliasMap.add k i m) !! normalise_type_name k = Some None).
  { rewrite add_lookup_eq, H1. destruct (Nat.eqb i j) eqn:E; [|done].
    by apply Nat.eqb_eq in E. }
  split; [exact H1|]. split; [apply add_same|]. split; [exact H2|]. split.
  - intros x. by apply add_ambiguous.
  - intros k' x Hne. by apply add_lookup_ne.
Qed.

Lemma alias_key_lifecycle_witness :
  AliasMap.add "global::N::Foo" 0 ∅ !! "N.Foo" = Some (Some 0)
  /\ AliasMap.add "N+Foo" 1 (AliasMap.add "global::N::Foo" 0 ∅) !! "N.Foo" = Some None.
Proof.
  assert (Hfree : (∅ : gmap string (option nat)) !! normalise_type_name "global::N::Foo"
                  = None) by apply lookup_empty.
  assert (Hne : 0 <> 1) by lia.
  destruct (alias_key_lifecycle "global::N::Foo" 0 1 ∅ Hfree Hne) as (H1 & _ & H2 & _).
  split; [exact H1|]. vm_compute. reflexivity.
Defined.

(** ** What [resolve] finds *)

(** On the alias map of a dump, [resolve] returns a type only for a name
    that, normalised, is the full or the short name of that type and of no
    other discovered type; or whose part after the last dot is. *)
Theorem resolve_sound text store amap name i :
  parse_dump text = Ok (store, amap) ->
  AliasMap.resolve name amap = Ok (Some i) ->
  exists t k,
    store !! i = Some t /\ keys_of t k
    /\ (k = normalise_type_name name
        \/ last (Py.split "." (normalise_type_name name)) = Some k)
    /\ forall j t', store !! j = Some t' -> keys_of t' k -> j = i.
Proof.
  intros Hparse Hres. destruct (parse_dump_alias_ok _ _ _ Hparse) as [H1 _].
  assert (Hget : forall k x, AliasMap.get amap k = Some x -> amap !! k = Some (Some x)).
  { intros k x. unfold AliasMap.get. destruct (amap !! k) as [[y|]|]; congruence. }
  unfold AliasMap.resolve in Hres.
  destruct (AliasMap.get amap (normalise_type_name name)) as [x|] eqn:E1.
  - injection Hres as ->. destruct (H1 _ _ (Hget _ _ E1)) as (t & Ht & Hk & Hu).
    exists t, (normalise_type_name name). eauto.
  - destruct (last (Py.split "." (normalise_type_name name))) as [simple|] eqn:El; [|done].
    destruct (AliasMap.get amap simple) as [x|] eqn:E2; [|done].
    injection Hres as ->. destruct (H1 _ _ (Hget _ _ E2)) as (t & Ht & Hk & Hu).
    exists t, simple. eauto.
Qed.

Lemma resolve_sound_witness :
  exists t k,
    AliasMap.resolve "global::A::Foo" (parsed_amap sample_dump) = Ok (Some 0)
    /\ parsed_store sample_dump !! 0 = Some t /\ keys_of t k.
Proof.
  assert (Hparse : parse_dump sample_dump
                   = Ok (parsed_store sample_dump, parsed_amap sample_dump))
    by (vm_compute; reflexivity).
  assert (Hres : AliasMap.resolve "global::A::Foo" (parsed_amap sample_dump) = Ok (Some 0))
    by (vm_compute; reflexivity).
  destruct (resolve_sound _ _ _ _ _ Hparse Hres) as (t & k & Ht & Hk & _).
  exists t, k. split; [exact Hres|]. split; [exact Ht|exact Hk].
Defined.

Lemma add_marked k0 id (m : gmap string (option nat)) k :
  AliasMap.add k0 id m !! k = Some None ->
  m !! k = Some None
  \/ (k = normalise_type_name k0 /\ exists e, m !! k = Some (Some e) /\ e <> id).
Proof.
  destruct (decide (k = normalise_type_name k0)) as [->|Hne].
  - rewrite add_lookup_eq. destruct (m !! normalise_type_name k0) as [[e|]|] eqn:E.
    + destruct (Nat.eqb e id) eqn:Ee; [done|]. apply Nat.eqb_neq in Ee.
      intros _. right. eauto.
    + auto.
    + done.
  - rewrite add_lookup_ne by done. auto.
Qed.

Lemma ambiguous_ok_new_type amap store info :
  alias_ok amap store -> ambiguous_ok amap store ->
  ambiguous_ok (AliasMap.add (short_name info) (length store)
                  (AliasMap.add (full_name info) (length store) amap))
               (store ++ [info])%list.
Proof.
  intros [H1 _] H3 k Hk.
  assert (Hnew : (store ++ [info])%list !! length store = Some info).
  { rewrite lookup_app_r by lia. by rewrite Nat.sub_diag. }
  assert (Helder : forall e, e <> length store -> amap !! k = Some (Some e) ->
            keys_of info k ->
            exists i j ti tj, i <> j /\ (store ++ [info])%list !! i = Some ti
              /\ (store ++ [info])%list !! j = Some tj /\ keys_of ti k /\ keys_of tj k).
  { intros e Hne He Hkey. destruct (H1 k e He) as (t & Ht & Hkt & _).
    exists e, (length store), t, info. split; [done|].
    split; [by apply lookup_app_l_Some|]. auto. }
  assert (Hold : amap !! k = Some None ->
            exists i j ti tj, i <> j /\ (store ++ [info])%list !! i = Some ti
              /\ (store ++ [info])%list !! j = Some tj /\ keys_of ti k /\ keys_of tj k).
  { intros Hm. destruct (H3 k Hm) as (i & j & ti & tj & Hij & Hi & Hj & Hki & Hkj).
    exists i, j, ti, tj. split; [done|].
    split; [by apply lookup_app_l_Some|]. split; [by apply lookup_app_l_Some|]. auto. }
  apply add_marked in Hk as [Hk|(-> & e & He & Hne)].
  - apply add_marked in Hk as [Hk|(-> & e & He & Hne)]; [by apply Hold|].
    apply (Helder e Hne He). by left.
  - apply add_bound in He as [(-> & _)|[He _]]; [done|].
    apply (Helder e Hne He). by right.
Qed.

Lemma ambiguous_ok_new_field amap store cur t f :
  store !! cur = Some t -> ambiguous_ok amap store ->
  ambiguous_ok amap (<[cur := append_field f t]> store).
Proof.
  intros Hcur H k Hk. destruct (H k Hk) as (i & j & ti & tj & Hij & Hi & Hj & Hki & Hkj).
  destruct (lookup_field_update_inv store cur t f i ti Hcur Hi) as (ti' & Hi' & Hiff).
  destruct (lookup_field_update_inv store cur t f j tj Hcur Hj) as (tj' & Hj' & Hiff').
  exists i, j, ti', tj'. split; [done|]. split; [done|]. split; [done|].
  split; [by apply Hiff|by apply Hiff'].
Qed.

Lemma parse_dump_ambiguous_ok text store amap :
  parse_dump text = Ok (store, amap) -> alias_ok amap store /\ ambiguous_ok amap store.
Proof.
  apply (parse_dump_invariant (fun s m => alias_ok m s /\ ambiguous_ok m s)).
  - intros st st' [E1 E2|info _ _ E1 E2|cur t f np Hcur _ E1 E2] [Ha Hb]; rewrite E1, E2.
    + done.
    + split; [by apply alias_ok_new_type|by apply ambiguous_ok_new_type].
    + split; [by apply alias_ok_new_field|by apply ambiguous_ok_new_field].
  - split; [apply alias_ok_empty|]. intros k Hk. by rewrite lookup_empty in Hk.
Qed.

(** On the alias map of a dump, a name that, normalised, is the full or
    the short name of one discovered type only resolves to that type. *)
Theorem resolve_complete text store amap name i t :
  parse_dump text = Ok (store, amap) ->
  store !! i = Some t ->
  keys_of t (normalise_type_name name) ->
  (forall j t', store !! j = Some t' -> keys_of t' (normalise_type_name name) -> j = i) ->
  AliasMap.resolve name amap = Ok (Some i).
Proof.
  intros Hparse Hi Hkey Huniq.
  destruct (parse_dump_ambiguous_ok _ _ _ Hparse) as [[H1 H2] H3].
  assert (Hb : amap !! normalise_type_name name = Some (Some i)).
  { destruct (H2 i t _ Hi Hkey) as [[x|] Hx].
    - destruct (H1 _ _ Hx) as (tx & Htx & Hkx & _).
      by rewrite (Huniq x tx Htx Hkx) in Hx.
    - destruct (H3 _ Hx) as (a & b & ta & tb & Hab & Ha & Hb & Hka & Hkb).
      pose proof (Huniq a ta Ha Hka). pose proof (Huniq b tb Hb Hkb). congruence. }
  unfold AliasMap.resolve, AliasMap.get. by rewrite Hb.
Qed.

Lemma resolve_complete_witness :
  AliasMap.resolve "A+Foo" (parsed_amap sample_dump) = Ok (Some 0).
Proof.
  assert (Hparse : parse_dump sample_dump
                   = Ok (parsed_store sample_dump, parsed_amap sample_dump))
    by (vm_compute; reflexivity).
  assert (Hfacts : exists t u, parsed_store sample_dump = [t; u]
                     /\ full_name t = "A.Foo" /\ full_name u = "Bar" /\ short_name u = "Bar")
    by (do 2 eexists; vm_compute; repeat split; reflexivity).
  destruct Hfacts as (t & u & Hs & Ht & Hu1 & Hu2).
  assert (Hn : normalise_type_name "A+Foo" = "A.Foo") by (vm_compute; reflexivity).
  apply (resolve_complete sample_dump _ _ "A+Foo" 0 t Hparse).
  - by rewrite Hs.
  - rewrite Hn. left. rewrite Ht. vm_compute. reflexivity.
  - rewrite Hn, Hs. intros j t' Hj Hk. destruct j as [|[|j]]; [done| |done].
    injection Hj as <-. destruct Hk as [Hk|Hk]; rewrite ?Hu1, ?Hu2 in Hk;
      vm_compute in Hk; discriminate.
Defined.

(** ** Emission exactly once, where structure names are distinct *)

Lemma before_trans l a b c : NoDup l -> before l a b -> before l b c -> before l a c.
Proof.
  intros Hnd (p & q & Hp & Hq & Hpq) (q' & r & Hq' & Hr & Hqr).
  assert (q = q') as <- by (by eapply NoDup_lookup).
  exists p, r. split; [done|]. split; [done|lia].
Qed.

Lemma before_irrefl l a : NoDup l -> ~ before l a a.
Proof.
  intros Hnd (p & q & Hp & Hq & Hpq).
  assert (p = q) by (by eapply NoDup_lookup). lia.
Qed.

Lemma before_elem l a b : before l a b -> a ∈ l /\ b ∈ l.
Proof.
  intros (p & q & Hp & Hq & _). split; by eapply list_elem_of_lookup_2.
Qed.

Section emit_once.
Variable amap : gmap string (option nat).
Variable store : list TypeInfo.
Hypothesis Hnames : NoDup (map struct_name store).

(** In an ordered list, a dependency that is not an enum stands before
    the type that depends on it. *)
Lemma ordered_before l b a :
  ordered amap store l -> b ∈ l -> depends_on amap store b a -> renderable store a ->
  before l a b.
Proof.
  intros Hord Hb Hdep (ta & Hta & Hea).
  apply list_elem_of_lookup in Hb as [q Hq].
  pose proof (take_drop_middle l q b Hq) as E. symmetry in E.
  destruct (ordered_split _ _ _ Hord _ _ _ a ta E Hdep Hta Hea) as (j & Hj & Hsame).
  apply (same_struct_name_eq _ _ _ Hnames) in Hsame. subst j.
  apply list_elem_of_lookup in Hj as [p Hp].
  pose proof (lookup_lt_Some _ _ _ Hp) as Hlt. rewrite length_take in Hlt.
  rewrite lookup_take_lt in Hp by lia.
  exists p, q. split; [done|]. split; [done|lia].
Qed.

Lemma dep_path_before l x z :
  ordered amap store l -> NoDup l -> x ∈ l -> dep_path amap store x z ->
  z = x \/ before l z x.
Proof.
  intros Hord Hnd Hx Hpath. induction Hpath as [x|x y z Hdep Hy Hpath IH]; [by left|].
  pose proof (ordered_before l x y Hord Hx Hdep Hy) as Hyx. right.
  destruct (IH (proj1 (before_elem _ _ _ Hyx))) as [->|Hzy]; [done|].
  by eapply before_trans.
Qed.

(** A type cannot be added by the call on one of its own dependencies. *)
Lemma no_self_reach l i d :
  ordered amap store l -> NoDup l -> i ∈ l ->
  depends_on amap store i d -> renderable store d -> dep_path amap store d i -> False.
Proof.
  intros Hord Hnd Hi Hdep Hd Hpath.
  pose proof (ordered_before l i d Hord Hi Hdep Hd) as Hdi.
  destruct (dep_path_before l d i Hord Hnd (proj1 (before_elem _ _ _ Hdi)) Hpath)
    as [->|Hid].
  - by eapply before_irrefl.
  - eapply before_irrefl; [exact Hnd|]. by eapply before_trans.
Qed.

Lemma nothing_added (l0 l : list nat) j : l0 = (l0 ++ l)%list -> j ∈ l -> False.
Proof.
  intros E Hj. rewrite <- (app_nil_r l0) in E at 1.
  apply app_inv_head in E. subst l. by apply elem_of_nil in Hj.
Qed.

Lemma reached_refl r st : reached amap store r st st.
Proof. intros l j E Hj. by destruct (nothing_added _ _ _ E Hj). Qed.

Lemma emit_fields_once n l :
  (forall st i st', emit n amap store st i = Ok st' -> emit_inv amap store st ->
     once_inv store st -> once_inv store st' /\ reached amap store i st st') ->
  forall st st', foldM (emit_field n amap store) st l = Ok st' ->
    emit_inv amap store st -> once_inv store st ->
    once_inv store st'
    /\ forall lnew j, order st' = (order st ++ lnew)%list -> j ∈ lnew ->
         exists f d, f ∈ l /\ referenced f = Some d
                     /\ renderable store d /\ dep_path amap store d j.
Proof.
  intros Hn. induction l as [|f l IH]; intros st st' H Hinv Honce; simpl in H.
  - injection H as <-. split; [done|]. intros lnew j E Hj.
    by destruct (nothing_added _ _ _ E Hj).
  - apply bind_ok in H as (st1 & H1 & H).
    assert (Hstep : emit_post amap store st st1 /\ once_inv store st1
              /\ forall l1 j, order st1 = (order st ++ l1)%list -> j ∈ l1 ->
                   exists d, referenced f = Some d
                             /\ renderable store d /\ dep_path amap store d j).
    { unfold emit_field in H1. destruct (referenced f) as [r|].
      - destruct (emit_ok_all amap store n _ _ _ H1 Hinv) as [Hp _].
        destruct (Hn _ _ _ H1 Hinv Honce) as [Ho Hr]. split; [done|]. split; [done|].
        intros l1 j E Hj. exists r. split; [done|]. by apply (Hr l1 j).
      - injection H1 as <-. split; [by apply emit_post_refl|]. split; [done|].
        intros l1 j E Hj. by destruct (nothing_added _ _ _ E Hj). }
    destruct Hstep as (Hp1 & Ho1 & Hr1).
    destruct (IH _ _ H (post_inv _ _ _ _ Hp1) Ho1) as [Ho2 Hr2].
    split; [done|]. intros lnew j E Hj.
    destruct (post_order _ _ _ _ Hp1) as [l1 E1].
    destruct (emit_fields_ok amap store n l (emit_ok_all amap store n) _ _ H
                (post_inv _ _ _ _ Hp1)) as [Hp2 _].
    destruct (post_order _ _ _ _ Hp2) as [l2 E2].
    assert (lnew = (l1 ++ l2)%list) as ->.
    { rewrite E2, E1, <- app_assoc in E. by apply app_inv_head in E. }
    apply elem_of_app in Hj as [Hj|Hj].
    + destruct (Hr1 l1 j E1 Hj) as (d & Hd & Hrd & Hpath).
      exists f, d. split; [by left|done].
    + destruct (Hr2 l2 j E2 Hj) as (g & d & Hg & Hd & Hrd & Hpath).
      exists g, d. split; [by right|done].
Qed.

Lemma emit_once_ok n :
  forall st i st', emit n amap store st i = Ok st' -> emit_inv amap store st ->
    once_inv store st -> once_inv store st' /\ reached amap store i st st'.
Proof.
  induction n as [|n IH]; intros st i st' H Hinv Honce; [done|].
  pose proof H as Hcall.
  rewrite emit_unfold in H. apply bind_ok in H as (info & Hinfo & H).
  unfold deref in Hinfo. destruct (store !! i) as [info'|] eqn:Ei; [|done].
  injection Hinfo as ->.
  destruct (is_enum info) eqn:Eenum.
  { injection H as <-. split; [done|apply reached_refl]. }
  destruct (bool_decide (struct_name info ∈ emitted st)) eqn:Edec.
  { injection H as <-. split; [done|apply reached_refl]. }
  apply bool_decide_eq_false in Edec.
  apply bind_ok in H as (pid & Hpid & H). apply bind_ok in H as (st1 & H1 & H).
  apply bind_ok in H as (st2 & H2 & H). apply bind_ok in H as (chunk & Hchunk & H).
  injection H as <-.
  assert (Hparent : emit_post amap store st st1 /\ once_inv store st1
            /\ forall l1 j, order st1 = (order st ++ l1)%list -> j ∈ l1 ->
                 exists d, pid = Some d /\ renderable store d /\ dep_path amap store d j).
  { destruct pid as [p|].
    - destruct (emit_ok_all amap store n _ _ _ H1 Hinv) as [Hp _].
      destruct (IH _ _ _ H1 Hinv Honce) as [Ho Hr]. split; [done|]. split; [done|].
      intros l1 j E Hj. exists p. split; [done|]. by apply (Hr l1 j).
    - injection H1 as <-. split; [by apply emit_post_refl|]. split; [done|].
      intros l1 j E Hj. by destruct (nothing_added _ _ _ E Hj). }
  destruct Hparent as (Hp1 & Ho1 & Hr1).
  destruct (emit_fields_once n _ IH _ _ H2 (post_inv _ _ _ _ Hp1) Ho1) as [Ho2 Hr2].
  destruct (emit_fields_ok amap store n _ (emit_ok_all amap store n) _ _ H2
              (post_inv _ _ _ _ Hp1)) as [Hp2 _].
  destruct (post_order _ _ _ _ Hp1) as [l1 E1].
  destruct (post_order _ _ _ _ Hp2) as [l2 E2].
  pose proof (post_inv _ _ _ _ Hp2) as Hinv2.
  assert (Hself : renderable store i) by (by exists info).
  assert (Hdeps : forall j, j ∈ (l1 ++ l2)%list ->
            exists d, depends_on amap store i d /\ renderable store d
                      /\ dep_path amap store d j).
  { intros j [Hj|Hj]%elem_of_app.
    - destruct (Hr1 l1 j E1 Hj) as (d & -> & Hrd & Hpath). exists d.
      split; [|done]. exists info. split; [done|by left].
    - destruct (Hr2 l2 j E2 Hj) as (f & d & Hf & Hd & Hrd & Hpath). exists d.
      split; [|done]. exists info. split; [done|]. right. by exists f. }
  assert (Hfresh : i ∉ order st2).
  { intros Hi. pose proof Hi as Hi'. rewrite E2, E1, <- app_assoc in Hi'.
    apply elem_of_app in Hi' as [Hi'|Hi'].
    - apply Edec. by apply (once_emitted _ _ Honce i info).
    - destruct (Hdeps i Hi') as (d & Hdep & Hrd & Hpath).
      by apply (no_self_reach (order st2) i d (inv_ordered _ _ _ Hinv2)
                  (once_nodup _ _ Ho2) Hi Hdep Hrd Hpath). }
  split.
  - split; simpl.
    + apply NoDup_app. split; [by apply (once_nodup _ _ Ho2)|]. split.
      * intros x Hx Hx'. apply list_elem_of_singleton in Hx'. by subst x.
      * apply NoDup_singleton.
    + intros j t [Hj|Hj]%elem_of_app Ht.
      * apply elem_of_union. right. by apply (once_emitted _ _ Ho2 j t).
      * apply list_elem_of_singleton in Hj. subst j. apply elem_of_union. left.
        apply elem_of_singleton. congruence.
  - intros l j E Hj. simpl in E. split; [done|].
    assert (l = ((l1 ++ l2) ++ [i])%list) as ->.
    { rewrite E2, E1 in E. rewrite <- !app_assoc in E. apply app_inv_head in E.
      by rewrite <- app_assoc. }
    apply elem_of_app in Hj as [Hj|Hj].
    + destruct (Hdeps j Hj) as (d & Hdep & Hrd & Hpath). by eapply dep_path_step.
    + apply list_elem_of_singleton in Hj. subst j. apply dep_path_refl.
Qed.
End emit_once.

Lemma emit_loop_once amap store n :
  NoDup (map struct_name store) ->
  forall ids st0 st, foldM (emit n amap store) st0 ids = Ok st ->
    emit_inv amap store st0 -> once_inv store st0 ->
    emit_inv amap store st /\ once_inv store st /\ emitted st0 ⊆ emitted st
    /\ forall i t, i ∈ ids -> store !! i = Some t -> is_enum t = false ->
         struct_name t ∈ emitted st.
Proof.
  intros Hnames. induction ids as [|i ids IH]; intros st0 st H Hinv Honce; simpl in H.
  - injection H as <-. split; [done|]. split; [done|]. split; [done|].
    intros i t Hi. by apply elem_of_nil in Hi.
  - apply bind_ok in H as (st1 & H1 & H).
    destruct (emit_ok_all amap store n _ _ _ H1 Hinv) as [Hp Hdone].
    destruct (emit_once_ok amap store Hnames n _ _ _ H1 Hinv Honce) as [Ho _].
    destruct (IH _ _ H (post_inv _ _ _ _ Hp) Ho) as (Hinv' & Ho' & Hsub & Hall).
    pose proof (post_emitted _ _ _ _ Hp) as Hsub1.
    split; [done|]. split; [done|]. split; [by transitivity (emitted st1)|].
    intros j t [->|Hj]%elem_of_cons Ht He.
    + apply Hsub. by apply (Hdone t).
    + by apply (Hall j t).
Qed.

Lemma once_inv_empty store : once_inv store empty_emit.
Proof. split; simpl; [apply NoDup_nil_2|]. intros j t Hj. by apply elem_of_nil in Hj. Qed.

(** With distinct structure names, the loop over [emit] renders every
    type that is not an enum once, and no other. *)
Lemma emit_all_once amap store n st :
  NoDup (map struct_name store) ->
  emit_all n amap store = Ok st ->
  emit_inv amap store st /\ NoDup (order st)
  /\ forall i t, store !! i = Some t -> (i ∈ order st <-> is_enum t = false).
Proof.
  intros Hnames H. unfold emit_all in H.
  destruct (emit_loop_once amap store n Hnames _ _ _ H (emit_inv_empty _ _)
              (once_inv_empty _)) as (Hinv & Ho & _ & Hall).
  split; [done|]. split; [by apply (once_nodup _ _ Ho)|].
  intros i t Hi. split.
  - intros Hin. destruct (inv_no_enum _ _ _ Hinv i Hin) as (t' & Ht' & He). congruence.
  - intros He.
    assert (Hseq : i ∈ seq 0 (length store)).
    { apply elem_of_seq. pose proof (lookup_lt_Some _ _ _ Hi). lia. }
    destruct (inv_emitted _ _ _ Hinv _ (Hall i t Hseq Hi He)) as (j & tj & Hj & Htj & Hn).
    assert (j = i) as <-; [|done].
    apply (same_struct_name_eq store j i Hnames). by exists tj, t.
Qed.

(** When the structure names of the discovered types are pairwise
    distinct and [generate_header] returns, the output is the two
    preambles followed by one rendered group for every discovered type
    that is not an enum, each exactly once. *)
Theorem emitted_exactly_once fuel type_infos amap version out :
  generate_header fuel type_infos amap version = Ok out ->
  NoDup (map struct_name type_infos) ->
  exists store st variant,
    resolve_field_types type_infos amap = Ok store
    /\ emit_all fuel amap store = Ok st
    /\ HEADER_VARIANTS !! version = Some variant
    /\ out = Py.concat (GENERIC_HEADER :: variant :: chunks st)
    /\ Forall2 (rendered amap store) (order st) (chunks st)
    /\ NoDup (order st)
    /\ forall i t, store !! i = Some t -> (i ∈ order st <-> is_enum t = false).
Proof.
  unfold generate_header. intros H Hnd.
  apply bind_ok in H as (store & Hstore & H). apply bind_ok in H as (st & Hst & H).
  destruct (HEADER_VARIANTS !! version) as [variant|] eqn:Ev; [|done].
  destruct (Py.truthy variant); [|done]. injection H as <-.
  rewrite <- (resolve_field_types_names _ _ _ Hstore) in Hnd.
  destruct (emit_all_once _ _ _ _ Hnd Hst) as (Hinv & Hnodup & Hiff).
  exists store, st, variant. do 4 (split; [done|]).
  split; [by apply (inv_rendered _ _ _ Hinv)|]. split; done.
Qed.

Lemma emitted_exactly_once_witness :
  exists out,
    generate_header 8 (parsed_store sample_dump) (parsed_amap sample_dump) "29" = Ok out
    /\ NoDup (order (emitted_state 8 sample_dump)).
Proof.
  assert (Hout : exists out,
            generate_header 8 (parsed_store sample_dump) (parsed_amap sample_dump) "29"
            = Ok out) by (eexists; vm_compute; reflexivity).
  destruct Hout as [out Hout]. exists out. split; [exact Hout|].
  assert (Hnd : NoDup (map struct_name (parsed_store sample_dump)))
    by (apply NoDup_by_decide; vm_compute; reflexivity).
  destruct (emitted_exactly_once _ _ _ _ _ Hout Hnd)
    as (store & st & variant & Hstore & Hst & _ & _ & _ & Hnodup & _).
  assert (Es : store = resolved_store sample_dump).
  { unfold resolved_store. rewrite Hstore. reflexivity. }
  subst store.
  assert (Et : st = emitted_state 8 sample_dump).
  { unfold emitted_state. rewrite Hst. reflexivity. }
  subst st. exact Hnodup.
Defined.

(** A dependency cycle through types that are not enums, in a store with
    distinct structure names, keeps [generate_header] from returning,
    whatever the recursion budget. *)
Theorem cycle_never_returns fuel type_infos amap version store i d :
  resolve_field_types type_infos amap = Ok store ->
  NoDup (map struct_name type_infos) ->
  renderable store i -> depends_on amap store i d -> renderable store d ->
  dep_path amap store d i ->
  forall out, generate_header fuel type_infos amap version <> Ok out.
Proof.
  intros Hstore Hnd (t & Ht & He) Hdep Hd Hpath out H.
  unfold generate_header in H. rewrite Hstore in H. cbn [bind] in H.
  apply bind_ok in H as (st & Hst & _).
  rewrite <- (resolve_field_types_names _ _ _ Hstore) in Hnd.
  destruct (emit_all_once _ _ _ _ Hnd Hst) as (Hinv & Hnodup & Hiff).
  apply (no_self_reach amap store Hnd (order st) i d (inv_ordered _ _ _ Hinv) Hnodup);
    [|done|done|done].
  by apply (Hiff i t).
Qed.

Lemma cycle_never_returns_witness :
  dep_path (parsed_amap cycle_dump) (resolved_store cycle_dump) 1 0
  /\ forall out,
       generate_header 1000 (parsed_store cycle_dump) (parsed_amap cycle_dump) "29" <> Ok out.
Proof.
  assert (Hres : resolve_field_types (parsed_store cycle_dump) (parsed_amap cycle_dump)
                 = Ok (resolved_store cycle_dump)) by (vm_compute; reflexivity).
  assert (Hnd : NoDup (map struct_name (parsed_store cycle_dump)))
    by (apply NoDup_by_decide; vm_compute; reflexivity).
  assert (Hr0 : renderable (resolved_store cycle_dump) 0)
    by (eexists; split; [vm_compute; reflexivity|reflexivity]).
  assert (Hr1 : renderable (resolved_store cycle_dump) 1)
    by (eexists; split; [vm_compute; reflexivity|reflexivity]).
  assert (Hd01 : depends_on (parsed_amap cycle_dump) (resolved_store cycle_dump) 0 1).
  { eexists. split; [vm_compute; reflexivity|]. right.
    eexists. split; [apply (list_elem_of_lookup_2 _ 0); reflexivity|reflexivity]. }
  assert (Hd10 : depends_on (parsed_amap cycle_dump) (resolved_store cycle_dump) 1 0).
  { eexists. split; [vm_compute; reflexivity|]. right.
    eexists. split; [apply (list_elem_of_lookup_2 _ 0); reflexivity|reflexivity]. }
  assert (Hpath : dep_path (parsed_amap cycle_dump) (resolved_store cycle_dump) 1 0).
  { apply (dep_path_step _ _ 1 0 0 Hd10 Hr0). apply dep_path_refl. }
  split; [exact Hpath|].
  exact (cycle_never_returns 1000 _ _ "29" _ 0 1 Hres Hnd Hr0 Hd01 Hr1 Hpath).
Defined.

(** ** When the scanner fails *)

Lemma split_type_and_name_result d :
  (exists r, split_type_and_name d = Ok r)
  \/ (exists msg, split_type_and_name d = Raise (ValueError msg)).
Proof.
  unfold split_type_and_name. cbv zeta.
  destruct (negb _); [right; eauto|]. destruct (find_type_end _ _ _); [left|right]; eauto.
Qed.

Lemma ctx_ok_mono store store' ctx :
  length store <= length store' -> ctx_ok store ctx -> ctx_ok store' ctx.
Proof. intros Hle H Hk. destruct (H Hk) as (i & Hi & Hlt). exists i. split; [done|lia]. Qed.

Lemma type_parts_ok store ctxs :
  Forall (ctx_ok store) ctxs -> exists parts, type_parts store ctxs = Ok parts.
Proof.
  induction 1 as [|ctx ctxs Hctx _ IH]; simpl; [eauto|].
  destruct (String.eqb (ctx_kind ctx) "type") eqn:E; [|done].
  apply String.eqb_eq in E. destruct (Hctx E) as (i & -> & Hlt).
  unfold deref. destruct (lookup_lt_is_Some_2 store i Hlt) as [t ->]. cbn [bind].
  destruct IH as [parts ->]. cbn [bind]. eauto.
Qed.

Lemma nearest_type_ok store stack c :
  Forall (ctx_ok store) stack -> nearest_type stack = Some c -> c < length store.
Proof.
  induction 1 as [|ctx stack Hctx _ IH]; simpl; [done|].
  destruct (String.eqb (ctx_kind ctx) "type") eqn:E; simpl; [|done].
  destruct (entered ctx); [|done]. apply String.eqb_eq in E.
  destruct (Hctx E) as (i & -> & Hlt). by intros [= <-].
Qed.

Lemma pop_contexts_ok store depth stack cur stack' cur' :
  pop_contexts depth stack cur = (stack', cur') ->
  Forall (ctx_ok store) stack -> (forall c, cur = Some c -> c < length store) ->
  Forall (ctx_ok store) stack' /\ forall c, cur' = Some c -> c < length store.
Proof.
  revert cur. induction stack as [|top below IH]; intros cur H Hst Hcur; simpl in H.
  - by injection H as <- <-.
  - destruct (entered top && (depth <? pop_depth top)%Z).
    + apply (IH _ H); [by eapply Forall_inv_tail|].
      destruct (String.eqb (ctx_kind top) "type"); [|done].
      intros c Hc. eapply nearest_type_ok; [|done]. by eapply Forall_inv_tail.
    + by injection H as <- <-.
Qed.

Lemma mark_entered_ok store depth ctx : ctx_ok store ctx -> ctx_ok store (mark_entered depth ctx).
Proof. unfold mark_entered. by destruct (_ && _). Qed.

Lemma close_line_ok st d : state_ok st -> state_ok (close_line st d).
Proof.
  intros [Hc Hcur]. unfold close_line.
  destruct (pop_contexts d (rev (map (mark_entered d) (contexts st))) (current_type st))
    as [stack cur] eqn:E.
  assert (Hrev : Forall (ctx_ok (type_infos st)) (rev (map (mark_entered d) (contexts st)))).
  { apply Forall_rev, Forall_fmap. eapply Forall_impl; [exact Hc|].
    intros ctx. apply mark_entered_ok. }
  destruct (pop_contexts_ok _ _ _ _ _ _ E Hrev Hcur) as [Hs Hc'].
  split; simpl; [by apply Forall_rev|done].
Qed.

Lemma state_ok_store st st' :
  length (type_infos st) <= length (type_infos st') ->
  contexts st' = contexts st -> current_type st' = current_type st ->
  state_ok st -> state_ok st'.
Proof.
  intros Hle Ec Ecur [Hc Hcur]. split.
  - rewrite Ec. eapply Forall_impl; [exact Hc|]. intros ctx. by apply ctx_ok_mono.
  - rewrite Ecur. intros c Hc'. specialize (Hcur c Hc'). lia.
Qed.

Lemma open_namespace_ok st m d o : state_ok st -> state_ok (open_namespace st m d o).
Proof.
  intros [Hc Hcur]. split; simpl; [|done].
  apply Forall_app. split; [done|]. apply Forall_singleton. intros Hk. discriminate.
Qed.

(** What [open_type] returns: it raises on an enum whose base list names
    nothing, and adds one type otherwise. *)
Lemma open_type_ok st m d o :
  state_ok st ->
  let empty_enum :=
    match Re.group "bases" m with
    | Some bases =>
        Py.truthy bases && String.eqb (default "" (Re.group "kind" m)) "enum"
        && match base_candidates bases with [] => true | _ => false end
    | None => false
    end in
  if empty_enum then open_type st m d o = Raise IndexError
  else exists st', open_type st m d o = Ok st' /\ state_ok st'
                   /\ length (type_infos st') = S (length (type_infos st)).
Proof.
  intros [Hc Hcur]. cbv zeta. unfold open_type. cbv zeta.
  destruct (type_parts_ok _ _ Hc) as [parts Hparts].
  assert (Hgood : forall parent enum_base,
    exists st',
      (tparts <- type_parts (type_infos st) (contexts st) ;;
       Ok (mkParseState
             (type_infos st ++
              [mkTypeInfo
                 match (namespace_parts (contexts st) ++ tparts)%list with
                 | [] => default "" (Re.group "name" m)
                 | s :: l => Py.join "." ((s :: l) ++ [default "" (Re.group "name" m)])
                 end
                 (default "" (Re.group "name" m))
                 (sanitize_struct_name
                    match (namespace_parts (contexts st) ++ tparts)%list with
                    | [] => default "" (Re.group "name" m)
                    | s :: l => Py.join "." ((s :: l) ++ [default "" (Re.group "name" m)])
                    end)
                 (default "" (Re.group "kind" m)) parent enum_base [] []])
             (AliasMap.add (default "" (Re.group "name" m)) (length (type_infos st))
                (AliasMap.add
                   match (namespace_parts (contexts st) ++ tparts)%list with
                   | [] => default "" (Re.group "name" m)
                   | s :: l => Py.join "." ((s :: l) ++ [default "" (Re.group "name" m)])
                   end (length (type_infos st)) (alias_map st)))
             (contexts st ++
              [mkContext "type" (default "" (Re.group "name" m))
                 (block_depth d (brace_depth st) o) (Some (length (type_infos st)))
                 (Nat.ltb 0 o)])
             (brace_depth st) false (Some (length (type_infos st))))) = Ok st'
      /\ state_ok st' /\ length (type_infos st') = S (length (type_infos st))).
  { intros parent enum_base. rewrite Hparts. cbn [bind]. eexists. split; [reflexivity|].
    split; [|simpl; rewrite length_app; simpl; lia].
    split; simpl.
    - apply Forall_app. split.
      + eapply Forall_impl; [exact Hc|]. intros ctx. apply ctx_ok_mono.
        rewrite length_app. lia.
      + apply Forall_singleton. intros _. eexists. split; [reflexivity|].
        rewrite length_app. simpl. lia.
    - intros c [= <-]. rewrite length_app. simpl. lia. }
  destruct (Re.group "bases" m) as [bases|]; [|cbn [bind fst snd]; apply Hgood].
  destruct (Py.truthy bases); [|cbn [bind fst snd andb]; apply Hgood].
  destruct (String.eqb (default "" (Re.group "kind" m)) "enum");
    [|cbn [bind fst snd andb]; apply Hgood].
  destruct (base_candidates bases); [done|cbn [bind fst snd andb]; apply Hgood].
Qed.

Lemma read_field_ok st cur stripped :
  state_ok st -> current_type st = Some cur ->
  exists st', read_field st cur stripped = Ok st' /\ state_ok st'
              /\ length (type_infos st') = length (type_infos st).
Proof.
  intros Hok Hcur. pose proof (proj2 Hok cur Hcur) as Hlt.
  unfold read_field.
  destruct (split_type_and_name_result stripped) as [[[tp np] ->]|[msg ->]].
  - unfold deref. destruct (lookup_lt_is_Some_2 _ _ Hlt) as [t ->]. cbn [bind].
    eexists. split; [reflexivity|]. split; [|simpl; by rewrite length_insert].
    eapply state_ok_store; [| | |exact Hok]; simpl; [by rewrite length_insert|done|done].
  - eexists. split; [reflexivity|]. split; [|done].
    eapply state_ok_store; [| | |exact Hok]; done.
Qed.

(** One line: the scanner raises [IndexError] on an enum opener whose
    base list names nothing, and goes on otherwise; a type opener adds one
    type and no other line adds or removes one. *)
Lemma parse_line_ok st line :
  state_ok st ->
  if bad_enum_line line then parse_line st line = Raise IndexError
  else exists st', parse_line st line = Ok st' /\ state_ok st'
         /\ length (type_infos st')
            = length (type_infos st) + (if is_type_line line then 1 else 0).
Proof.
  intros Hok. unfold bad_enum_line, is_type_line, parse_line. cbv zeta.
  set (stripped := Py.strip (Py.rstrip line)).
  set (d := (brace_depth st + _ - _)%Z).
  destruct (Re.rmatch NAMESPACE_RE stripped) as [mn|].
  { cbn [bind]. eexists. split; [reflexivity|].
    split; [by apply close_line_ok, open_namespace_ok|].
    rewrite (proj1 (close_line_store _ _)). simpl. lia. }
  destruct (Re.rmatch TYPE_RE stripped) as [mt|].
  { pose proof (open_type_ok st (snd mt) d (Py.count "{" (Py.rstrip line)) Hok) as H.
    cbv zeta in H. destruct (Re.group "bases" (snd mt)) as [bases|].
    - destruct (_ && _ && _).
      + by rewrite H.
      + destruct H as (st' & -> & Hok' & Hlen). cbn [bind]. eexists.
        split; [reflexivity|]. split; [by apply close_line_ok|].
        rewrite (proj1 (close_line_store _ _)). lia.
    - destruct H as (st' & -> & Hok' & Hlen). cbn [bind]. eexists.
      split; [reflexivity|]. split; [by apply close_line_ok|].
      rewrite (proj1 (close_line_store _ _)). lia. }
  assert (Hsame : forall st1, state_ok st1 ->
            length (type_infos st1) = length (type_infos st) ->
            exists st', Ok (close_line st1 d) = Ok st' /\ state_ok st'
              /\ length (type_infos st') = length (type_infos st) + 0).
  { intros st1 Hok1 Hlen. eexists. split; [reflexivity|].
    split; [by apply close_line_ok|]. rewrite (proj1 (close_line_store _ _)). lia. }
  destruct (Re.search FIELD_OFFSET_RE stripped).
  { cbn [bind]. apply Hsame; [|done]. eapply state_ok_store; [| | |exact Hok]; done. }
  destruct (current_type st) as [cur|] eqn:Ecur; [|cbn [bind]; by apply Hsame].
  destruct (_ && _ && _); [|cbn [bind]; by apply Hsame].
  destruct (read_field_ok st cur stripped Hok Ecur) as (st1 & -> & Hok1 & Hlen).
  cbn [bind]. by apply Hsame.
Qed.

Lemma parse_lines_ok lines :
  forall st, state_ok st ->
  if existsb bad_enum_line lines then parse_lines st lines = Raise IndexError
  else exists st', parse_lines st lines = Ok st' /\ state_ok st'
         /\ length (type_infos st')
            = length (type_infos st) + length (filter (fun l => is_type_line l = true) lines).
Proof.
  induction lines as [|line lines IH]; intros st Hok; simpl.
  - eexists. split; [reflexivity|]. split; [done|lia].
  - pose proof (parse_line_ok st line Hok) as H.
    destruct (bad_enum_line line) eqn:Eb; simpl.
    + by rewrite H.
    + destruct H as (st1 & -> & Hok1 & Hlen1). cbn [bind].
      specialize (IH st1 Hok1). destruct (existsb bad_enum_line lines); [done|].
      destruct IH as (st' & -> & Hok' & Hlen). eexists. split; [reflexivity|].
      split; [done|]. rewrite Hlen, Hlen1.
      rewrite filter_cons. destruct (decide (is_type_line line = true)) as [->|Hn].
      * simpl. lia.
      * apply not_true_is_false in Hn. rewrite Hn. lia.
Qed.

Lemma state_ok_initial : state_ok initial_state.
Proof. split; simpl; [constructor|done]. Qed.

Lemma parse_dump_result (text : string) :
  if existsb bad_enum_line (file_lines text) then parse_dump text = Raise IndexError
  else exists store amap,
         parse_dump text = Ok (store, amap)
         /\ length store
            = length (filter (fun l => is_type_line l = true) (file_lines text)).
Proof.
  pose proof (parse_lines_ok (file_lines text) initial_state state_ok_initial) as H.
  unfold parse_dump. destruct (existsb bad_enum_line (file_lines text)).
  - by rewrite H.
  - destruct H as (st & -> & _ & Hlen). cbn [bind]. eauto.
Qed.

(** [parse_dump] fails on exactly the dumps that have an enum opener
    whose base list names nothing, and then with [IndexError]; on every
    other text it returns, with as many types as the text has type opener
    lines. *)
Theorem parse_dump_outcome (text : string) :
  if existsb bad_enum_line (file_lines text) then parse_dump text = Raise IndexError
  else exists store amap,
         parse_dump text = Ok (store, amap)
         /\ length store
            = length (filter (fun l => is_type_line l = true) (file_lines text)).
Proof. apply parse_dump_result. Qed.

Lemma bad_enum_is_type_line line : bad_enum_line line = true -> is_type_line line = true.
Proof.
  unfold bad_enum_line, is_type_line. cbv zeta.
  destruct (Re.rmatch NAMESPACE_RE _); [done|]. by destruct (Re.rmatch TYPE_RE _).
Qed.

Lemma no_type_lines lines :
  forallb (fun l => negb (is_type_line l)) lines = true ->
  filter (fun l => is_type_line l = true) lines = [].
Proof.
  induction lines as [|l ls IH]; [done|]. simpl.
  intros [Hl Hls]%andb_true_iff. rewrite filter_cons.
  apply negb_true_iff in Hl. rewrite decide_False by congruence. by apply IH.
Qed.

Lemma parse_args_ok d o v :
  v ∈ version_choices ->
  parse_args (Some d) (Some o) (Some v) = Ok (mkArgs d o v).
Proof.
  intros Hv. unfold parse_args. change (default "29" (Some v)) with v.
  apply mem_elem_of in Hv. by rewrite Hv.
Qed.

(** [main] on a missing dump file, and on a dump without a type opener
    line: the run ends with the respective [SystemExit] and the file
    system is as before. *)
Theorem main_input_errors fuel d o v (fs : gmap string string) :
  v ∈ version_choices ->
  (fs !! d = None ->
   main fuel (Some d) (Some o) (Some v) fs
   = (fs, Raise (SystemExit ("dump.cs not found: " ++ d))))
  /\ (forall text, fs !! d = Some text ->
        forallb (fun l => negb (is_type_line l)) (file_lines text) = true ->
        main fuel (Some d) (Some o) (Some v) fs
        = (fs, Raise (SystemExit "No types discovered in dump.cs; is the file valid?"))).
Proof.
  intros Hv. split.
  - intros Hd. unfold main. rewrite (parse_args_ok d o v Hv). cbn [bind].
    unfold main_text. cbn [dump]. by rewrite Hd.
  - intros text Hd Hnone. unfold main. rewrite (parse_args_ok d o v Hv). cbn [bind].
    unfold main_text. cbn [dump]. rewrite Hd.
    pose proof (parse_dump_result text) as H.
    assert (Hbad : existsb bad_enum_line (file_lines text) = false).
    { apply not_true_is_false. intros (l & Hl & Hb)%existsb_exists.
      rewrite forallb_forall in Hnone. specialize (Hnone l Hl).
      by rewrite (bad_enum_is_type_line l Hb) in Hnone. }
    rewrite Hbad in H. destruct H as (store & amap & -> & Hlen). cbn [bind fst].
    rewrite (no_type_lines _ Hnone) in Hlen. by destruct store.
Qed.

Lemma main_input_errors_witness :
  main 8 (Some "dump.cs") (Some "il2cpp.h") (Some "29") {["dump.cs" := empty_dump]}
  = ({["dump.cs" := empty_dump]},
     Raise (SystemExit "No types discovered in dump.cs; is the file valid?")).
Proof.
  assert (Hv : "29" ∈ version_choices).
  { apply mem_elem_of. vm_compute. reflexivity. }
  apply (proj2 (main_input_errors 8 "dump.cs" "il2cpp.h" "29" _ Hv) empty_dump).
  - apply lookup_singleton_eq.
  - vm_compute. reflexivity.
Defined.

(** ** Resolution of the fields *)

Lemma mapM_Forall2 {A B : Type} (f : A -> result B) (R : A -> B -> Prop) l :
  (forall a, a ∈ l -> exists b, f a = Ok b /\ R a b) ->
  exists l', mapM f l = Ok l' /\ Forall2 R l l'.
Proof.
  induction l as [|a l IH]; intros H; simpl.
  - exists []. split; [done|constructor].
  - destruct (H a) as (b & -> & Hb); [by left|]. cbn [bind].
    destruct IH as (l' & -> & Hl'); [intros x Hx; apply H; by right|]. cbn [bind].
    exists (b :: l'). split; [done|by constructor].
Qed.

Lemma convert_type_ok original amap store :
  alias_bound amap store ->
  exists c dep, convert_type original amap store = Ok (c, dep) /\ c <> ""
                /\ forall r, dep = Some r -> r < length store.
Proof.
  intros Hb.
  destruct (convert_type_cases original amap store Hb)
    as [(p & Hp & ->)|[(Hp & Hr & ->)|(i & t & Hp & Hr & Ht & ->)]].
  - do 2 eexists. split; [done|]. split; [|done].
    destruct (Nat.ltb 0 _); [done|]. by eapply append_nonempty, primitive_of_nonempty.
  - do 2 eexists. split; [done|]. split; [by destruct (Nat.ltb 0 _)|done].
  - do 2 eexists. split; [done|]. split.
    + destruct (Nat.ltb 0 _); [done|]. apply append_nonempty.
      destruct (is_enum t); [apply enum_base_nonempty|].
      destruct (is_value_type t); intros E; by destruct (struct_name t).
    + intros r. destruct (is_value_type t); [|done]. intros [= <-].
      by eapply lookup_lt_Some.
Qed.

Lemma resolve_field_ok amap store f :
  alias_bound amap store ->
  exists f', resolve_field amap store f = Ok f' /\ field_resolved amap store f f'
             /\ forall r, referenced f' = Some r -> r < length store.
Proof.
  intros Hb. unfold resolve_field.
  destruct (convert_type_ok (original_type f) amap store Hb) as (c & dep & Hc & Hne & Hr).
  rewrite Hc. cbn [bind fst snd]. eexists. split; [reflexivity|].
  unfold field_resolved. simpl. split; [|done]. do 3 (split; [done|]). by exists c.
Qed.

Lemma resolve_type_ok amap store t :
  alias_bound amap store ->
  exists t', resolve_type amap store t = Ok t' /\ type_resolved amap store t t'
             /\ forall f r, f ∈ (fields t' ++ static_fields t')%list ->
                  referenced f = Some r -> r < length store.
Proof.
  intros Hb. unfold resolve_type.
  set (R := fun f f' => field_resolved amap store f f'
                        /\ forall r, referenced f' = Some r -> r < length store).
  destruct (mapM_Forall2 (resolve_field amap store) R (fields t)) as (fs & -> & Hfs).
  { intros f _. by apply resolve_field_ok. }
  destruct (mapM_Forall2 (resolve_field amap store) R (static_fields t)) as (sfs & -> & Hsfs).
  { intros f _. by apply resolve_field_ok. }
  cbn [bind]. eexists. split; [reflexivity|]. split.
  - unfold type_resolved. simpl. do 6 (split; [done|]).
    split; (eapply Forall2_impl; [eassumption|]); by intros f f' [? _].
  - simpl. intros f r [Hf|Hf]%elem_of_app Hr.
    + apply (Forall2_Forall_r _ (fun f' => forall r, referenced f' = Some r -> r < length store)) in Hfs.
      * rewrite Forall_forall in Hfs. by apply (Hfs f Hf).
      * apply Forall_forall. by intros x _ y [_ ?].
    + apply (Forall2_Forall_r _ (fun f' => forall r, referenced f' = Some r -> r < length store)) in Hsfs.
      * rewrite Forall_forall in Hsfs. by apply (Hsfs f Hf).
      * apply Forall_forall. by intros x _ y [_ ?].
Qed.

Lemma resolve_field_types_ok type_infos amap :
  alias_bound amap type_infos ->
  exists store, resolve_field_types type_infos amap = Ok store
    /\ Forall2 (type_resolved amap type_infos) type_infos store
    /\ refs_ok store.
Proof.
  intros Hb. unfold resolve_field_types.
  set (R := fun t t' => type_resolved amap type_infos t t'
              /\ forall f r, f ∈ (fields t' ++ static_fields t')%list ->
                   referenced f = Some r -> r < length type_infos).
  destruct (mapM_Forall2 (resolve_type amap type_infos) R type_infos) as (store & -> & Hs).
  { intros t _. by apply resolve_type_ok. }
  exists store. split; [done|]. split.
  - eapply Forall2_impl; [exact Hs|]. by intros t t' [? _].
  - intros t f r Ht Hf Hr. rewrite <- (Forall2_length _ _ _ Hs).
    apply (Forall2_Forall_r _ (fun t' => forall f r, f ∈ (fields t' ++ static_fields t')%list ->
             referenced f = Some r -> r < length type_infos)) in Hs.
    + rewrite Forall_forall in Hs. by apply (Hs t Ht f r).
    + apply Forall_forall. by intros x _ y [_ ?].
Qed.

(** On the output of [parse_dump], [resolve_field_types] never fails; it
    keeps the types and the fields, their order, their names and their
    flags, and gives every field a native type that is not empty, the one
    that [convert_type] returns for the declared type of the field,
    together with the dependency that [convert_type] returns. *)
Theorem resolve_field_types_total text type_infos amap :
  parse_dump text = Ok (type_infos, amap) ->
  exists store, resolve_field_types type_infos amap = Ok store
    /\ Forall2 (type_resolved amap type_infos) type_infos store.
Proof.
  intros Hparse.
  pose proof (alias_ok_bound _ _ (parse_dump_alias_ok _ _ _ Hparse)) as Hb.
  destruct (resolve_field_types_ok type_infos amap Hb) as (store & Hs & HR & _). eauto.
Qed.

Lemma resolve_field_types_total_witness :
  exists store,
    resolve_field_types (parsed_store sample_dump) (parsed_amap sample_dump) = Ok store
    /\ Forall2 (type_resolved (parsed_amap sample_dump) (parsed_store sample_dump))
         (parsed_store sample_dump) store.
Proof.
  assert (Hparse : parse_dump sample_dump
                   = Ok (parsed_store sample_dump, parsed_amap sample_dump))
    by (vm_compute; reflexivity).
  exact (resolve_field_types_total sample_dump _ _ Hparse).
Defined.

(** ** Rendering never fails *)

Lemma resolve_parent_ok amap store t :
  alias_bound amap store ->
  exists r, resolve_parent amap t = Ok r /\ forall i, r = Some i -> i < length store.
Proof.
  intros Hb. unfold resolve_parent.
  destruct (parent t) as [p|]; [|by exists None].
  destruct (Py.truthy p); [|by exists None].
  destruct (resolve_ok p amap) as (r & -> & Hr). exists r. split; [done|].
  intros i Hi. destruct (Hr i Hi) as [k Hk]. destruct (Hb k i Hk) as [x Hx].
  by eapply lookup_lt_Some.
Qed.

Lemma concat_nonempty x l : x <> "" -> Py.concat (x :: l) <> "".
Proof. intros Hx. unfold Py.concat. simpl. by destruct x. Qed.

Lemma fields_head_nonempty n p : fields_head n p <> "".
Proof. unfold fields_head. destruct p as [p|]; [destruct (Py.truthy p)|]; done. Qed.

(** [render_type] returns for every type, over an alias map whose
    bindings point into the store; the text is empty exactly for a type
    with neither fields nor static fields. *)
Lemma render_type_ok amap store t :
  alias_bound amap store ->
  exists c, render_type t amap store = Ok c
            /\ (c = "" <-> fields t = [] /\ static_fields t = []).
Proof.
  intros Hb. unfold render_type.
  destruct (resolve_parent_ok amap store t Hb) as (r & Hr & Hlt).
  assert (Hdecl : exists pd,
            match r with
            | Some i =>
                parent_info <- deref store i ;;
                if negb (is_enum parent_info)
                   && negb (String.eqb (struct_name parent_info) (struct_name t))
                then Ok (Some (struct_name parent_info))
                else Ok None
            | None => Ok None
            end = Ok pd).
  { destruct r as [i|]; [|eauto]. unfold deref.
    destruct (lookup_lt_is_Some_2 store i (Hlt i eq_refl)) as [pinfo ->]. cbn [bind].
    destruct (_ && _); eauto. }
  destruct Hdecl as [pd Hpd].
  assert (Hfull : exists c,
            (parent_id <- resolve_parent amap t ;;
             parent_decl <-
               match parent_id with
               | Some i =>
                   parent_info <- deref store i ;;
                   if negb (is_enum parent_info)
                      && negb (String.eqb (struct_name parent_info) (struct_name t))
                   then Ok (Some (struct_name parent_info))
                   else Ok None
               | None => Ok None
               end ;;
             let fields_struct_name := struct_name t ++ "_Fields" in
             let has_static := match static_fields t with [] => false | _ => true end in
             let lines : list string :=
               List.app [ fields_head fields_struct_name parent_decl ]
               (List.app (flat_map field_line (fields t))
               (List.app [ "};" ++ nl ++ nl ]
               (List.app (class_lines t has_static)
               (List.app (object_lines t fields_struct_name)
                         (static_lines t has_static))))) in
             Ok (Py.concat lines)) = Ok c /\ c <> "").
  { rewrite Hr. cbn [bind]. rewrite Hpd. cbn [bind]. eexists. split; [reflexivity|].
    apply concat_nonempty, fields_head_nonempty. }
  destruct Hfull as (c & Hc & Hne).
  destruct (fields t) as [|f fs] eqn:Ef; destruct (static_fields t) as [|g gs] eqn:Eg.
  - exists "". split; [done|]. done.
  - exists c. split; [exact Hc|]. split; [done|]. by intros [_ ?].
  - exists c. split; [exact Hc|]. split; [done|]. by intros [? _].
  - exists c. split; [exact Hc|]. split; [done|]. by intros [? _].
Qed.

(** A call of [emit] raises nothing: it returns or runs out of fuel. *)
Lemma emit_no_raise amap store n :
  alias_bound amap store -> refs_ok store ->
  forall st i, i < length store ->
    emit n amap store st i = Timeout \/ exists st', emit n amap store st i = Ok st'.
Proof.
  intros Hb Hrefs. induction n as [|n IH]; intros st i Hi; [by left|].
  rewrite emit_unfold. unfold deref.
  destruct (lookup_lt_is_Some_2 store i Hi) as [info Hinfo]. rewrite Hinfo. cbn [bind].
  destruct (is_enum info); [right; eauto|].
  destruct (bool_decide _); [right; eauto|].
  destruct (resolve_parent_ok amap store info Hb) as (pid & -> & Hpid). cbn [bind].
  assert (Hp : match pid with
               | Some p => emit n amap store st p
               | None => Ok st
               end = Timeout
               \/ exists st1, match pid with
                              | Some p => emit n amap store st p
                              | None => Ok st
                              end = Ok st1).
  { destruct pid as [p|]; [|right; eauto]. by apply IH, Hpid. }
  destruct Hp as [->|[st1 ->]]; [by left|]. cbn [bind].
  assert (Hf : forall l s, (forall f, f ∈ l -> f ∈ (fields info ++ static_fields info)%list) ->
            foldM (emit_field n amap store) s l = Timeout
            \/ exists s', foldM (emit_field n amap store) s l = Ok s').
  { induction l as [|f l IHl]; intros s Hl; simpl; [right; eauto|].
    assert (Hstep : emit_field n amap store s f = Timeout
                    \/ exists s1, emit_field n amap store s f = Ok s1).
    { unfold emit_field. destruct (referenced f) as [r|] eqn:Er; [|right; eauto].
      apply IH. apply (Hrefs info f r); [by eapply list_elem_of_lookup_2| |done].
      apply Hl. by left. }
    destruct Hstep as [->|[s1 ->]]; [by left|]. cbn [bind].
    apply IHl. intros g Hg. apply Hl. by right. }
  destruct (Hf (fields info ++ static_fields info)%list st1) as [->|[st2 ->]];
    [done|by left|].
  cbn [bind]. destruct (render_type_ok amap store info Hb) as (c & -> & _). cbn [bind].
  right. eauto.
Qed.

Lemma supported_variant version :
  version ∈ version_choices ->
  exists variant, HEADER_VARIANTS !! version = Some variant /\ Py.truthy variant = true.
Proof.
  unfold version_choices. intros H.
  repeat (apply elem_of_cons in H as [->|H];
          [eexists; split; [vm_compute; reflexivity|reflexivity]|]).
  by apply elem_of_nil in H.
Qed.

Lemma alias_bound_length amap (store store' : list TypeInfo) :
  length store = length store' -> alias_bound amap store -> alias_bound amap store'.
Proof.
  intros Hlen Hb k i Hk. destruct (Hb k i Hk) as [x Hx].
  apply lookup_lt_is_Some_2. rewrite <- Hlen. by eapply lookup_lt_Some.
Qed.

(** On the output of [parse_dump] and with a supported version,
    [generate_header] raises nothing: it returns the header, or the
    recursion of [emit] does not come to an end within the budget. *)
Theorem generate_header_no_raise fuel text type_infos amap version :
  parse_dump text = Ok (type_infos, amap) ->
  version ∈ version_choices ->
  generate_header fuel type_infos amap version = Timeout
  \/ exists out, generate_header fuel type_infos amap version = Ok out.
Proof.
  intros Hparse Hv.
  pose proof (alias_ok_bound _ _ (parse_dump_alias_ok _ _ _ Hparse)) as Hb.
  destruct (resolve_field_types_ok type_infos amap Hb) as (store & Hs & HR & Hrefs).
  destruct (supported_variant version Hv) as (variant & Hvar & Htr).
  assert (Hb' : alias_bound amap store).
  { eapply alias_bound_length; [|exact Hb]. by eapply Forall2_length. }
  unfold generate_header. rewrite Hs. cbn [bind].
  assert (Hloop : forall ids st0, (forall i, i ∈ ids -> i < length store) ->
            foldM (emit fuel amap store) st0 ids = Timeout
            \/ exists st, foldM (emit fuel amap store) st0 ids = Ok st).
  { induction ids as [|i ids IH]; intros st0 Hids; simpl; [right; eauto|].
    destruct (emit_no_raise amap store fuel Hb' Hrefs st0 i) as [->|[st1 ->]].
    - apply Hids. by left.
    - by left.
    - cbn [bind]. apply IH. intros j Hj. apply Hids. by right. }
  unfold emit_all.
  destruct (Hloop (seq 0 (length store)) empty_emit) as [->|[st ->]].
  - intros i Hi. apply elem_of_seq in Hi. lia.
  - by left.
  - cbn [bind]. rewrite Hvar, Htr. right. eauto.
Qed.

Lemma generate_header_no_raise_witness :
  exists out,
    generate_header 8 (parsed_store sample_dump) (parsed_amap sample_dump) "24.1" = Ok out.
Proof.
  assert (Hparse : parse_dump sample_dump
                   = Ok (parsed_store sample_dump, parsed_amap sample_dump))
    by (vm_compute; reflexivity).
  assert (Hv : "24.1" ∈ version_choices) by (apply mem_elem_of; vm_compute; reflexivity).
  destruct (generate_header_no_raise 8 sample_dump _ _ "24.1" Hparse Hv) as [H|H].
  - exfalso. revert H. vm_compute. discriminate.
  - exact H.
Defined.

(** [render_type] returns for every type, over an alias map whose
    bindings point into the store; the text is empty exactly for a type
    with neither fields nor static fields. *)
Theorem render_type_total amap store t :
  alias_bound amap store ->
  exists c, render_type t amap store = Ok c
            /\ (c = "" <-> fields t = [] /\ static_fields t = []).
Proof. apply render_type_ok. Qed.

Lemma render_type_total_witness :
  exists t c,
    resolved_store sample_dump !! 1 = Some t
    /\ render_type t (parsed_amap sample_dump) (resolved_store sample_dump) = Ok c
    /\ c <> "".
Proof.
  assert (Hparse : parse_dump sample_dump
                   = Ok (parsed_store sample_dump, parsed_amap sample_dump))
    by (vm_compute; reflexivity).
  pose proof (alias_ok_bound _ _ (parse_dump_alias_ok _ _ _ Hparse)) as Hb.
  assert (Hlen : length (parsed_store sample_dump) = length (resolved_store sample_dump))
    by (vm_compute; reflexivity).
  pose proof (alias_bound_length _ _ _ Hlen Hb) as Hb'.
  assert (Ht : exists t, resolved_store sample_dump !! 1 = Some t /\ fields t <> [])
    by (eexists; split; [vm_compute; reflexivity|discriminate]).
  destruct Ht as (t & Ht & Hf).
  destruct (render_type_total _ _ t Hb') as (c & Hc & Hiff).
  exists t, c. split; [exact Ht|]. split; [exact Hc|].
  intros E. apply Hiff in E as [E _]. by apply Hf.
Defined.

(** ** What the scanner records *)

Lemma read_field_store st cur stripped st' :
  read_field st cur stripped = Ok st' ->
  type_infos st' = type_infos st
  \/ exists t tp np,
       type_infos st !! cur = Some t
       /\ split_type_and_name stripped = Ok (tp, np)
       /\ type_infos st' = <[cur := append_field (scanned_field stripped tp np) t]> (type_infos st).
Proof.
  unfold read_field. destruct (split_type_and_name stripped) as [[tp np]|e|] eqn:E; [| |done].
  - intros H. apply bind_ok in H as (t & Ht & H). injection H as <-.
    unfold deref in Ht. destruct (type_infos st !! cur) as [t'|] eqn:Ec; [|done].
    injection Ht as ->. right. exists t, tp, np. done.
  - destruct e; try done. intros H. injection H as <-. by left.
Qed.

(** A property of the types holds of every type of every store the
    scanner reaches, if the type of an opener has it and a new field keeps
    it. *)
Lemma parse_dump_types (T : TypeInfo -> Prop) :
  (forall st m d o st', open_type st m d o = Ok st' ->
     exists info, type_infos st' = (type_infos st ++ [info])%list /\ T info) ->
  (forall t stripped tp np, T t -> split_type_and_name stripped = Ok (tp, np) ->
     T (append_field (scanned_field stripped tp np) t)) ->
  forall text store amap, parse_dump text = Ok (store, amap) -> Forall T store.
Proof.
  intros Hnew Hfield.
  assert (Hline : forall st line st', parse_line st line = Ok st' ->
            Forall T (type_infos st) -> Forall T (type_infos st')).
  { intros st line st'. unfold parse_line. cbv zeta. intros H.
    apply bind_ok in H as (st1 & H1 & H). injection H as <-.
    rewrite (proj1 (close_line_store _ _)). intros HT.
    destruct (Re.rmatch NAMESPACE_RE _). { by injection H1 as <-. }
    destruct (Re.rmatch TYPE_RE _).
    { destruct (Hnew _ _ _ _ _ H1) as (info & -> & Hinfo).
      apply Forall_app. split; [done|by apply Forall_singleton]. }
    destruct (Re.search _ _). { by injection H1 as <-. }
    destruct (current_type st) as [cur|]; [|by injection H1 as <-].
    destruct (_ && _); [|by injection H1 as <-].
    apply read_field_store in H1 as [->|(t & tp & np & Ht & Hsplit & ->)]; [done|].
    apply Forall_insert; [done|]. apply Hfield; [|done].
    rewrite Forall_forall in HT. apply HT. by eapply list_elem_of_lookup_2. }
  assert (Hlines : forall lines st st', parse_lines st lines = Ok st' ->
            Forall T (type_infos st) -> Forall T (type_infos st')).
  { induction lines as [|l lines IH]; intros st st' H HT; simpl in H.
    - by injection H as <-.
    - apply bind_ok in H as (st1 & H1 & H). apply (IH st1 st' H). by eapply Hline. }
  intros text store amap H. unfold parse_dump in H.
  apply bind_ok in H as (st & Hst & H). injection H as <- <-.
  apply (Hlines _ _ _ Hst). constructor.
Qed.

Lemma lstrip_no_lead s : no_lead (Py.lstrip s).
Proof.
  induction s as [|c t IH]; simpl; [done|]. destruct (Py.isspace c) eqn:E; [done|].
  simpl. done.
Qed.

Lemma lstrip_id s : no_lead s -> Py.lstrip s = s.
Proof. destruct s as [|c t]; simpl; [done|]. by intros ->. Qed.

Lemma rstrip_by_idem p s : Py.rstrip_by p (Py.rstrip_by p s) = Py.rstrip_by p s.
Proof.
  induction s as [|c t IH]; [done|]. cbn [Py.rstrip_by].
  destruct (Py.rstrip_by p t) as [|a r] eqn:E.
  - destruct (p c) eqn:Ec; [done|]. cbn [Py.rstrip_by]. by rewrite Ec.
  - change (Py.rstrip_by p (String c (String a r)))
      with (match Py.rstrip_by p (String a r) with
            | EmptyString => if p c then EmptyString else String c EmptyString
            | String x y => String c (String x y)
            end).
    by rewrite IH.
Qed.

Lemma rstrip_by_tail p c t :
  Py.rstrip_by p (String c t) = String c t -> Py.rstrip_by p t = t.
Proof.
  cbn [Py.rstrip_by]. destruct (Py.rstrip_by p t) as [|a r] eqn:E.
  - destruct (p c); [done|]. by intros [= <-].
  - by intros [= <-].
Qed.

Lemma rstrip_lstrip s : Py.rstrip s = s -> Py.rstrip (Py.lstrip s) = Py.lstrip s.
Proof.
  unfold Py.rstrip. induction s as [|c t IH]; [done|]. intros H.
  cbn [Py.lstrip]. destruct (Py.isspace c); [|done].
  apply IH. by eapply rstrip_by_tail.
Qed.

Lemma strip_idem s : Py.strip (Py.strip s) = Py.strip s.
Proof.
  unfold Py.strip. rewrite (rstrip_lstrip (Py.rstrip s)) by apply rstrip_by_idem.
  apply lstrip_id, lstrip_no_lead.
Qed.

Lemma strip_no_lead s : no_lead (Py.strip s).
Proof. apply lstrip_no_lead. Qed.

Lemma split_ws1_rest rem p rest more :
  Py.split_ws1 rem = p :: rest :: more -> no_lead rest.
Proof.
  unfold Py.split_ws1. destruct (Py.lstrip rem) as [|c t]; [done|].
  destruct (Py.word_end (String c t)) as [w r].
  pose proof (lstrip_no_lead r) as H. destruct (Py.lstrip r) as [|a u]; [done|].
  by intros [= _ <- _].
Qed.

Lemma strip_modifiers_loop_no_lead n rem :
  no_lead rem -> no_lead (strip_modifiers_loop n rem).
Proof.
  revert rem. induction n as [|n IH]; intros rem H; cbn [strip_modifiers_loop]; [done|].
  destruct (Py.split_ws1 rem) as [|p [|rest more]] eqn:E; [done| |].
  - destruct (mem p MODIFIERS); [exact I|exact H].
  - destruct (mem p MODIFIERS); [|exact H]. apply IH. by eapply split_ws1_rest.
Qed.

Lemma strip_modifiers_no_lead d : no_lead (strip_modifiers d).
Proof. apply strip_modifiers_loop_no_lead, strip_no_lead. Qed.

Lemma find_type_end_ge depth index s e :
  find_type_end depth index s = Some e -> index <= e.
Proof.
  revert depth index. induction s as [|c t IH]; intros depth index; simpl; [done|].
  destruct (_ || _); [intros H%IH; lia|].
  destruct (_ || _); [intros H%IH; lia|].
  destruct (_ && _); [intros [= <-]; lia|]. intros H%IH. lia.
Qed.

(** The type part that [split_type_and_name] returns is not empty and
    does not start with white space. *)
Lemma split_type_and_name_type d tp np :
  split_type_and_name d = Ok (tp, np) ->
  exists c t, tp = String c t /\ Py.isspace c = false.
Proof.
  unfold split_type_and_name. cbv zeta.
  set (decl := strip_modifiers _).
  pose proof (strip_modifiers_no_lead
    (if Py.contains "//" (Py.rstrip_by (Py.eqc ";") (Py.strip d))
     then Py.rstrip (Py.before "//" (Py.rstrip_by (Py.eqc ";") (Py.strip d)))
     else Py.rstrip_by (Py.eqc ";") (Py.strip d))) as Hlead.
  fold decl in Hlead.
  destruct (negb (Py.truthy decl)) eqn:Et; [done|].
  destruct (find_type_end 0 0 decl) as [e|] eqn:Ee; [|done].
  intros [= <- _]. destruct decl as [|c t]; [done|]. simpl in Hlead.
  destruct e as [|e].
  - simpl in Ee. rewrite Hlead in Ee.
    destruct (_ || _); [apply find_type_end_ge in Ee; lia|].
    destruct (_ || _); [apply find_type_end_ge in Ee; lia|].
    simpl in Ee. apply find_type_end_ge in Ee. lia.
  - simpl. eauto.
Qed.

Lemma string_app_assoc (a b c : string) : (a ++ b) ++ c = a ++ (b ++ c).
Proof.
  induction a as [|x a IH]; [done|].
  change (String x ((a ++ b) ++ c) = String x (a ++ (b ++ c))). by f_equal.
Qed.

Lemma join_snoc parts x :
  parts <> [] -> exists outer, Py.join "." (parts ++ [x]) = outer ++ "." ++ x.
Proof.
  induction parts as [|p parts IH]; [done|]. intros _.
  destruct parts as [|q parts].
  - exists p. done.
  - destruct IH as [outer Ho]; [done|]. exists (p ++ "." ++ outer).
    change (Py.join "." ((p :: q :: parts) ++ [x]))
      with (p ++ "." ++ Py.join "." ((q :: parts) ++ [x])).
    rewrite Ho. by rewrite !string_app_assoc.
Qed.

Lemma first_parent_some cs p :
  first_parent cs = Some p -> p ∈ cs /\ mem p IGNORED_BASES = false.
Proof.
  induction cs as [|c cs IH]; cbn [first_parent]; [done|].
  destruct (mem c IGNORED_BASES) eqn:E.
  - intros [H1 H2]%IH. split; [by right|done].
  - intros [= <-]. split; [by left|done].
Qed.

Lemma base_candidates_elem bases p :
  p ∈ base_candidates bases -> p <> "" /\ Py.strip p = p.
Proof.
  unfold base_candidates. intros (b & -> & Hb)%list_elem_of_fmap.
  apply list_elem_of_filter in Hb as [Hb _]. split; [|apply strip_idem].
  intros E. by rewrite E in Hb.
Qed.

(** The type that [open_type] adds. *)
Lemma open_type_new st m d o st' :
  open_type st m d o = Ok st' ->
  exists info, type_infos st' = (type_infos st ++ [info])%list
               /\ fields info = [] /\ static_fields info = [] /\ type_shape info.
Proof.
  unfold open_type. cbv zeta. intros H. apply bind_ok in H as (br & Hbr & H).
  apply bind_ok in H as (tp & Htp & H). injection H as <-.
  eexists. split; [reflexivity|]. split; [reflexivity|]. split; [reflexivity|].
  unfold type_shape. cbn [struct_name full_name short_name parent enum_base kind].
  split; [reflexivity|]. split.
  { destruct (namespace_parts (contexts st) ++ tp)%list as [|p parts] eqn:E; [by left|].
    right. exact (join_snoc (p :: parts) (default "" (Re.group "name" m)) ltac:(done)). }
  assert (Hcases :
    (br = (None, None))
    \/ (exists bases p, br = (Some p, None) /\ p ∈ base_candidates bases
          /\ mem p IGNORED_BASES = false
          /\ String.eqb (default "" (Re.group "kind" m)) "enum" = false)
    \/ (exists bases b, br = (None, Some b) /\ b ∈ base_candidates bases
          /\ String.eqb (default "" (Re.group "kind" m)) "enum" = true)).
  { destruct (Re.group "bases" m) as [bases|]; [|left; congruence].
    destruct (Py.truthy bases); [|left; congruence].
    destruct (String.eqb (default "" (Re.group "kind" m)) "enum") eqn:Ek.
    - destruct (base_candidates bases) as [|b cs] eqn:Ec; [done|].
      injection Hbr as <-. right. right. exists bases, b. rewrite Ec.
      split; [done|]. split; [by left|done].
    - injection Hbr as <-. destruct (first_parent (base_candidates bases)) as [p|] eqn:Ep.
      + apply first_parent_some in Ep as [Hin Hmem]. right. left. exists bases, p. done.
      + by left. }
  destruct Hcases as [->|[(bases & p & -> & Hin & Hmem & Hk)|(bases & b & -> & Hin & Hk)]];
    cbn [fst snd].
  - split; intros x Hx; discriminate.
  - split; [|intros x Hx; discriminate]. intros x [= <-].
    destruct (base_candidates_elem _ _ Hin) as [Hne Hs].
    split; [done|]. split; [done|]. split; [done|]. split; [done|].
    intros E. rewrite E in Hk. discriminate.
  - split; [intros x Hx; discriminate|]. intros x [= <-].
    destruct (base_candidates_elem _ _ Hin) as [Hne Hs].
    apply String.eqb_eq in Hk. done.
Qed.

Lemma scanned_field_shape stripped tp np :
  split_type_and_name stripped = Ok (tp, np) -> field_shape (scanned_field stripped tp np).
Proof.
  intros H. unfold field_shape, scanned_field. simpl.
  split; [apply sanitize_identifier_clean|]. split; [|done].
  by eapply split_type_and_name_type.
Qed.

Lemma fields_shape_append f t :
  field_shape f -> fields_shape t -> fields_shape (append_field f t).
Proof.
  intros Hf [H1 H2]. unfold append_field, fields_shape.
  destruct (is_static f) eqn:E; simpl.
  - split; [done|]. apply Forall_app. split; [done|]. by apply Forall_singleton.
  - split; [|done]. apply Forall_app. split; [done|]. by apply Forall_singleton.
Qed.

Lemma type_shape_append f t : type_shape t -> type_shape (append_field f t).
Proof. unfold append_field, type_shape. by destruct (is_static f). Qed.

(** After [parse_dump], every field has a name that is a C identifier and
    a declared type that is not empty and does not start with white space,
    has no native type and no dependency yet, and is in the list of static
    fields exactly if its flag says so. *)
Theorem scanned_fields text store amap :
  parse_dump text = Ok (store, amap) -> Forall fields_shape store.
Proof.
  apply (parse_dump_types fields_shape).
  - intros st m d o st' H. destruct (open_type_new _ _ _ _ _ H) as (info & E & F1 & F2 & _).
    exists info. split; [done|]. unfold fields_shape. rewrite F1, F2. split; constructor.
  - intros t stripped tp np Ht Hs. apply fields_shape_append; [|done].
    by apply scanned_field_shape.
Qed.

Lemma scanned_fields_witness : Forall fields_shape (parsed_store sample_dump).
Proof.
  assert (Hparse : parse_dump sample_dump
                   = Ok (parsed_store sample_dump, parsed_amap sample_dump))
    by (vm_compute; reflexivity).
  exact (scanned_fields sample_dump _ _ Hparse).
Defined.

(** After [parse_dump], the structure name of every type is the sanitized
    full name; the full name is the short name, or ends with a dot and the
    short name; a parent is never one of the ignored bases, is not empty
    and has no white space around it, and belongs to a type that is not an
    enum; an underlying type is only recorded for an enum, is not empty
    and has no white space around it. *)
Theorem scanned_types text store amap :
  parse_dump text = Ok (store, amap) -> Forall type_shape store.
Proof.
  apply (parse_dump_types type_shape).
  - intros st m d o st' H. destruct (open_type_new _ _ _ _ _ H) as (info & E & _ & _ & Hs).
    by exists info.
  - intros t stripped tp np Ht _. by apply type_shape_append.
Qed.

Lemma scanned_types_witness : Forall type_shape (parsed_store sample_dump).
Proof.
  assert (Hparse : parse_dump sample_dump
                   = Ok (parsed_store sample_dump, parsed_amap sample_dump))
    by (vm_compute; reflexivity).
  exact (scanned_types sample_dump _ _ Hparse).
Defined.

(** ** The brace depth *)

Lemma count_rstrip c s : Py.isspace c = false -> Py.count c (Py.rstrip s) = Py.count c s.
Proof.
  intros Hc. unfold Py.rstrip. induction s as [|a t IH]; [done|].
  cbn [Py.rstrip_by]. destruct (Py.rstrip_by Py.isspace t) as [|x r] eqn:E.
  - destruct (Py.isspace a) eqn:Ea.
    + cbn [Py.count]. rewrite <- IH.
      destruct (Py.eqc a c) eqn:Eac; [|done]. apply eqc_eq in Eac. congruence.
    + cbn [Py.count]. by rewrite <- IH.
  - cbn [Py.count]. by rewrite <- IH.
Qed.

Lemma parse_line_depth st line st' :
  parse_line st line = Ok st' ->
  brace_depth st'
  = (brace_depth st + (Z.of_nat (Py.count "{" line) - Z.of_nat (Py.count "}" line)))%Z.
Proof.
  unfold parse_line. cbv zeta. intros H. apply bind_ok in H as (st1 & _ & H).
  injection H as <-. unfold close_line. destruct (pop_contexts _ _ _). simpl.
  rewrite !count_rstrip by reflexivity. lia.
Qed.

(** The brace depth after a run of lines is the depth before plus the
    number of opening braces on these lines minus the number of closing
    braces, whatever else the lines hold. *)
Theorem brace_depth_balance lines st st' :
  parse_lines st lines = Ok st' ->
  brace_depth st' = (brace_depth st + brace_balance lines)%Z.
Proof.
  revert st. induction lines as [|l lines IH]; intros st H; simpl in H.
  - injection H as <-. simpl. lia.
  - apply bind_ok in H as (st1 & H1 & H). rewrite (IH _ H).
    rewrite (parse_line_depth _ _ _ H1). cbn [brace_balance]. lia.
Qed.

Lemma brace_depth_balance_witness :
  exists st', parse_lines initial_state (file_lines sample_dump) = Ok st'
              /\ brace_depth st' = 0%Z.
Proof.
  assert (H : exists st', parse_lines initial_state (file_lines sample_dump) = Ok st')
    by (eexists; vm_compute; reflexivity).
  destruct H as [st' H]. exists st'. split; [exact H|].
  rewrite (brace_depth_balance _ _ _ H). vm_compute. reflexivity.
Defined.

(** ** Lines that the namespace pattern recognises *)

















